(** * Exec-approval allowlist and safe-bin policy evaluator

    A shallow embedding of the module that decides whether a shell command
    may run without confirmation: the literal/glob/path classifier, the
    safe-bin profile table, the argv validator, the safe-bin usage gate and
    the segment/chain evaluator, followed by the properties established for
    them.

    Conventions of the embedding.
    - A JavaScript string is a [string]: a sequence of code units, here the
      code units below 256.  [trim] and [toLowerCase] are the built-ins
      restricted to that range.
    - [Set<string>] is a [gset string]; the object used as the profile
      table is a [gmap string SafeBinProfile].
    - An optional field or parameter ([x?: T]) is an [option T]; a
      parameter typed [T | null] that may also be left out is a [JsOpt T],
      which keeps [undefined] and [null] apart.
    - The [for] loop of the validator walks its argument list by suffix:
      index [i] is the suffix of [args] starting at [i], so [args[i + 1]]
      is the head of the remaining tokens.
    - [process.platform] is ambient state of the host process; every
      function that reads it, directly or through a callee, takes it as
      its first argument [hostPlatform]. *)

From Stdlib Require Import ZArith Ascii String List Bool Lia.
From stdpp Require Import base option gmap strings list.

Local Open Scope string_scope.
Local Open Scope list_scope.

(** ** The string built-ins the module calls *)

Module JsString.

(** [WhiteSpace] and [LineTerminator] code units below 256: TAB, LF, VT,
    FF, CR, SP and NBSP. *)
Definition isWhiteSpace (c : ascii) : bool :=
  let n := nat_of_ascii c in
  (Nat.leb 9 n && Nat.leb n 13) || Nat.eqb n 32 || Nat.eqb n 160.

Fixpoint trimStart (s : string) : string :=
  match s with
  | EmptyString => EmptyString
  | String c s' => if isWhiteSpace c then trimStart s' else s
  end.

Fixpoint trimEnd (s : string) : string :=
  match s with
  | EmptyString => EmptyString
  | String c s' =>
      match trimEnd s' with
      | EmptyString => if isWhiteSpace c then EmptyString else String c EmptyString
      | t => String c t
      end
  end.

(** [String.prototype.trim] *)
Definition trim (s : string) : string := trimEnd (trimStart s).

(** Lower-casing of one code unit: [A-Z] and the upper-case letters of the
    Latin-1 supplement (U+00C0 to U+00DE without the multiplication sign). *)
Definition toLowerCaseUnit (c : ascii) : ascii :=
  let n := nat_of_ascii c in
  if (Nat.leb 65 n && Nat.leb n 90)
     || (Nat.leb 192 n && Nat.leb n 222 && negb (Nat.eqb n 215))
  then ascii_of_nat (n + 32)
  else c.

(** [String.prototype.toLowerCase] *)
Fixpoint toLowerCase (s : string) : string :=
  match s with
  | EmptyString => EmptyString
  | String c s' => String (toLowerCaseUnit c) (toLowerCase s')
  end.

(** [!value] for a string value: only the empty string is falsy. *)
Definition isEmpty (s : string) : bool :=
  match s with
  | EmptyString => true
  | String _ _ => false
  end.

(** [s.startsWith(p)] *)
Definition startsWith (s p : string) : bool := String.prefix p s.

Fixpoint indexOfFrom (c : ascii) (s : string) (i : Z) : Z :=
  match s with
  | EmptyString => (-1)%Z
  | String d s' => if Ascii.eqb d c then i else indexOfFrom c s' (i + 1)%Z
  end.

(** [s.indexOf(c)] for a needle of one code unit: the position of its first
    occurrence, or -1. *)
Definition indexOf (s : string) (c : ascii) : Z := indexOfFrom c s 0.

Fixpoint drop (n : nat) (s : string) : string :=
  match n, s with
  | O, _ => s
  | S _, EmptyString => EmptyString
  | S n', String _ s' => drop n' s'
  end.

Fixpoint take (n : nat) (s : string) : string :=
  match n, s with
  | O, _ => EmptyString
  | S _, EmptyString => EmptyString
  | S n', String c s' => String c (take n' s')
  end.

(** [s.slice(start)] and [s.slice(start, end)] for non-negative indices,
    which is all the module passes. *)
Definition slice (s : string) (start : Z) (end_ : option Z) : string :=
  let from := drop (Z.to_nat start) s in
  match end_ with
  | None => from
  | Some e => take (Z.to_nat (e - start)) from
  end.

(** [re.test(s)] for a character-class pattern without anchors: some code
    unit of [s] is in the class. *)
Fixpoint testAny (class : ascii -> bool) (s : string) : bool :=
  match s with
  | EmptyString => false
  | String c s' => class c || testAny class s'
  end.

End JsString.

Import JsString.

(** A value that may be [undefined], [null] or present. *)
Inductive JsOpt (A : Type) : Type :=
| JsUndefined
| JsNull
| JsValue (a : A).

Arguments JsUndefined {A}.
Arguments JsNull {A}.
Arguments JsValue {A} a.

(** ** Literal, glob and path classifier *)

Definition isAsciiLetter (c : ascii) : bool :=
  let n := nat_of_ascii c in
  (Nat.leb 65 n && Nat.leb n 90) || (Nat.leb 97 n && Nat.leb n 122).

(** The pattern [/^[A-Za-z]:[\\/]/]. *)
Definition driveLetterPrefix (s : string) : bool :=
  match s with
  | String l (String colon (String sep _)) =>
      isAsciiLetter l && Ascii.eqb colon ":" && (Ascii.eqb sep "\" || Ascii.eqb sep "/")
  | _ => false
  end.

Definition isPathLikeToken (value : string) : bool :=
  let trimmed := trim value in
  if isEmpty trimmed then false
  else if (trimmed =? "-") then false
  else if startsWith trimmed "./" || startsWith trimmed "../" || startsWith trimmed "~" then true
  else if startsWith trimmed "/" then true
  else driveLetterPrefix trimmed.

Definition isGlobUnit (c : ascii) : bool :=
  Ascii.eqb c "*" || Ascii.eqb c "?" || Ascii.eqb c "[" || Ascii.eqb c "]".

(** The pattern [/[*?[\]]/]. *)
Definition hasGlobToken (value : string) : bool := testAny isGlobUnit value.

Definition isSafeLiteralToken (value : string) : bool :=
  if isEmpty value || (value =? "-") then true
  else negb (hasGlobToken value) && negb (isPathLikeToken value).

(** ** Safe-bin set normalisation *)

(** The external constant [DEFAULT_SAFE_BINS] is an argument of
    [resolveSafeBins]. *)

Definition normalizeSafeBins (entries : JsOpt (list string)) : gset string :=
  match entries with
  | JsValue entries =>
      let normalized :=
        List.filter (fun entry => Nat.ltb 0 (String.length entry))
          (List.map (fun entry => toLowerCase (trim entry)) entries) in
      list_to_set normalized
  | _ => ∅
  end.

Definition resolveSafeBins (DEFAULT_SAFE_BINS : list string)
    (entries : JsOpt (list string)) : gset string :=
  match entries with
  | JsUndefined => normalizeSafeBins (JsValue DEFAULT_SAFE_BINS)
  | JsNull => normalizeSafeBins (JsValue [])
  | JsValue l => normalizeSafeBins (JsValue l)
  end.

(** ** Safe-bin profiles *)

Record SafeBinProfile : Type := {
  minPositional : option Z;
  maxPositional : option Z;
  valueFlags : option (gset string);
  blockedFlags : option (gset string);
}.

Definition NO_FLAGS : gset string := ∅.

Definition SAFE_BIN_GENERIC_PROFILE : SafeBinProfile :=
  {| minPositional := None; maxPositional := None;
     valueFlags := None; blockedFlags := None |}.

Definition jqProfile : SafeBinProfile :=
  {| minPositional := None;
     maxPositional := Some 1%Z;
     valueFlags := Some (list_to_set
       ["--arg"; "--argjson"; "--argstr"; "--argfile"; "--rawfile";
        "--slurpfile"; "--from-file"; "--library-path"; "-L"; "-f"]);
     blockedFlags := Some (list_to_set
       ["--argfile"; "--rawfile"; "--slurpfile"; "--from-file";
        "--library-path"; "-L"; "-f"]) |}.

Definition grepProfile : SafeBinProfile :=
  {| minPositional := None;
     maxPositional := Some 1%Z;
     valueFlags := Some (list_to_set
       ["--regexp"; "--file"; "--max-count"; "--after-context";
        "--before-context"; "--context"; "--devices"; "--directories";
        "--binary-files"; "--exclude"; "--exclude-from"; "--include";
        "--label"; "-e"; "-f"; "-m"; "-A"; "-B"; "-C"; "-D"; "-d"]);
     blockedFlags := Some (list_to_set
       ["--file"; "--exclude-from"; "--dereference-recursive";
        "--directories"; "--recursive"; "-f"; "-d"; "-r"; "-R"]) |}.

Definition cutProfile : SafeBinProfile :=
  {| minPositional := None;
     maxPositional := Some 0%Z;
     valueFlags := Some (list_to_set
       ["--bytes"; "--characters"; "--fields"; "--delimiter";
        "--output-delimiter"; "-b"; "-c"; "-f"; "-d"]);
     blockedFlags := None |}.

Definition sortProfile : SafeBinProfile :=
  {| minPositional := None;
     maxPositional := Some 0%Z;
     valueFlags := Some (list_to_set
       ["--key"; "--field-separator"; "--buffer-size";
        "--temporary-directory"; "--compress-program"; "--parallel";
        "--batch-size"; "--random-source"; "--files0-from"; "--output";
        "-k"; "-t"; "-S"; "-T"; "-o"]);
     blockedFlags := Some (list_to_set ["--files0-from"; "--output"; "-o"]) |}.

Definition uniqProfile : SafeBinProfile :=
  {| minPositional := None;
     maxPositional := Some 0%Z;
     valueFlags := Some (list_to_set
       ["--skip-fields"; "--skip-chars"; "--check-chars"; "--group";
        "-f"; "-s"; "-w"]);
     blockedFlags := None |}.

Definition headProfile : SafeBinProfile :=
  {| minPositional := None;
     maxPositional := Some 0%Z;
     valueFlags := Some (list_to_set ["--lines"; "--bytes"; "-n"; "-c"]);
     blockedFlags := None |}.

Definition tailProfile : SafeBinProfile :=
  {| minPositional := None;
     maxPositional := Some 0%Z;
     valueFlags := Some (list_to_set
       ["--lines"; "--bytes"; "--sleep-interval"; "--max-unchanged-stats";
        "--pid"; "-n"; "-c"]);
     blockedFlags := None |}.

Definition trProfile : SafeBinProfile :=
  {| minPositional := Some 1%Z;
     maxPositional := Some 2%Z;
     valueFlags := None;
     blockedFlags := None |}.

Definition wcProfile : SafeBinProfile :=
  {| minPositional := None;
     maxPositional := Some 0%Z;
     valueFlags := Some (list_to_set ["--files0-from"]);
     blockedFlags := Some (list_to_set ["--files0-from"]) |}.

Definition SAFE_BIN_PROFILES : gmap string SafeBinProfile :=
  list_to_map
    [("jq", jqProfile); ("grep", grepProfile); ("cut", cutProfile);
     ("sort", sortProfile); ("uniq", uniqProfile); ("head", headProfile);
     ("tail", tailProfile); ("tr", trProfile); ("wc", wcProfile)].

(** ** Argv validator *)

(** [set.has(x)] *)
Definition has (set : gset string) (x : string) : bool := bool_decide (x ∈ set).

(** How the scan of one short-flag cluster ends. *)
Inductive ClusterScan : Type :=
| ClusterRejected
| ClusterNoValue
| ClusterInlineValue
| ClusterNextValue.

(** The inner loop over [token[1]], [token[2]], ...: [units] is the part of
    the token from index [j] on, so [token.slice(j + 1)] is what follows
    its first unit.  [ClusterNextValue] is the branch that goes on to read
    [args[i + 1]]. *)
Fixpoint scanCluster (valueFlags blockedFlags : gset string) (units : string)
    : ClusterScan :=
  match units with
  | EmptyString => ClusterNoValue
  | String c inlineValue =>
      let flag := String "-" (String c EmptyString) in
      if has blockedFlags flag then ClusterRejected
      else if negb (has valueFlags flag) then
        scanCluster valueFlags blockedFlags inlineValue
      else if negb (isEmpty inlineValue) then
        if negb (isSafeLiteralToken inlineValue) then ClusterRejected
        else ClusterInlineValue
      else ClusterNextValue
  end.

(** The loop over the tokens after [--]; [None] is [return false]. *)
Fixpoint scanAfterDoubleDash (rest : list string) (positional : list string)
    : option (list string) :=
  match rest with
  | [] => Some positional
  | r :: rest' =>
      if isEmpty r || (r =? "-") then scanAfterDoubleDash rest' positional
      else if negb (isSafeLiteralToken r) then None
      else scanAfterDoubleDash rest' (positional ++ [r])
  end.

(** [const value = args[i + 1]; if (!value || !isSafeLiteralToken(value))
    return false;] as the condition under which the scan goes on. *)
Definition nextValueAccepted (rest : list string) : bool :=
  match rest with
  | [] => false
  | value :: _ => negb (isEmpty value) && isSafeLiteralToken value
  end.

(** What one iteration of the outer loop does. *)
Inductive Iteration : Type :=
| ReturnFalse
| Break (positional : list string)
| Continue (skipNext : bool) (positional : list string).

(** The body of the outer loop at [token = args[i]], with [rest] the
    tokens from [i + 1] on.  [Continue true] is an iteration that also
    executed [i += 1]. *)
Definition loopBody (profile : SafeBinProfile) (token : string)
    (rest : list string) (positional : list string) : Iteration :=
  let valueFlags := default NO_FLAGS (valueFlags profile) in
  let blockedFlags := default NO_FLAGS (blockedFlags profile) in
  if isEmpty token then Continue false positional
  else if token =? "--" then
    match scanAfterDoubleDash rest positional with
    | None => ReturnFalse
    | Some positional' => Break positional'
    end
  else if token =? "-" then Continue false positional
  else if negb (startsWith token "-") then
    if negb (isSafeLiteralToken token) then ReturnFalse
    else Continue false (positional ++ [token])
  else if startsWith token "--" then
    let eqIndex := indexOf token "=" in
    let flag := if (0 <? eqIndex)%Z then slice token 0 (Some eqIndex) else token in
    if has blockedFlags flag then ReturnFalse
    else if (0 <? eqIndex)%Z then
      if negb (isSafeLiteralToken (slice token (eqIndex + 1) None)) then ReturnFalse
      else Continue false positional
    else if negb (has valueFlags flag) then Continue false positional
    else if negb (nextValueAccepted rest) then ReturnFalse
    else Continue true positional
  else
    match scanCluster valueFlags blockedFlags (slice token 1 None) with
    | ClusterRejected => ReturnFalse
    | ClusterInlineValue => Continue false positional
    | ClusterNextValue =>
        if negb (nextValueAccepted rest) then ReturnFalse
        else Continue true positional
    | ClusterNoValue =>
        if hasGlobToken token then ReturnFalse else Continue false positional
    end.

(** The outer loop; [None] is [return false], [Some positional] the list
    collected when the loop is left. *)
Fixpoint scanArgs (profile : SafeBinProfile) (args : list string)
    (positional : list string) : option (list string) :=
  match args with
  | [] => Some positional
  | token :: rest =>
      match loopBody profile token rest positional with
      | ReturnFalse => None
      | Break positional' => Some positional'
      | Continue false positional' => scanArgs profile rest positional'
      | Continue true positional' =>
          match rest with
          | [] => Some positional'
          | _ :: rest' => scanArgs profile rest' positional'
          end
      end
  end.

(** The two checks after the loop. *)
Definition positionalCountAccepted (profile : SafeBinProfile)
    (positional : list string) : bool :=
  let minPositional := default 0%Z (minPositional profile) in
  if (Z.of_nat (length positional) <? minPositional)%Z then false
  else
    match maxPositional profile with
    | Some maxPositional =>
        if (maxPositional <? Z.of_nat (length positional))%Z then false else true
    | None => true
    end.

Definition validateSafeBinArgv (args : list string) (profile : SafeBinProfile)
    : bool :=
  match scanArgs profile args [] with
  | None => false
  | Some positional => positionalCountAccepted profile positional
  end.

(** ** External collaborators *)

(** Modelled from the spec: the types [CommandResolution],
    [ExecCommandSegment] and [ExecCommandAnalysis] are declared in a module
    that is not part of the sources at hand; their fields are those of the
    data model. *)
Record CommandResolution : Type := {
  executableName : string;
  resolvedPath : option string;
}.

Record ExecCommandSegment : Type := {
  argv : list string;
  resolution : option CommandResolution;
}.

Record ExecCommandAnalysis : Type := {
  ok : bool;
  segments : list ExecCommandSegment;
  chains : option (list (list ExecCommandSegment));
}.

(** The imported functions, whose code is outside this module, and the one
    library function it calls ([path.parse(p).name]).  They are pure
    functions of their arguments. *)
Class Externals : Type := {
  ExecAllowlistEntry : Type;
  ProcessEnv : Type;
  analyzeShellCommand :
    string -> option string -> option ProcessEnv -> JsOpt string -> ExecCommandAnalysis;
  isWindowsPlatform : JsOpt string -> bool;
  matchAllowlist :
    list ExecAllowlistEntry -> option CommandResolution -> option ExecAllowlistEntry;
  resolveAllowlistCandidatePath :
    option CommandResolution -> option string -> option string;
  splitCommandChain : string -> option (list string);
  isTrustedSafeBinPath : string -> option (gset string) -> bool;
  pathParseName : string -> string;
}.

(** ** Safe-bin usage gate and segment/chain evaluator *)

Inductive ExecSegmentSatisfiedBy : Type :=
| SatisfiedByAllowlist
| SatisfiedBySafeBins
| SatisfiedBySkills
| SatisfiedByNull.

(** [Boolean(by)] *)
Definition isSatisfied (by_ : ExecSegmentSatisfiedBy) : bool :=
  match by_ with
  | SatisfiedByNull => false
  | _ => true
  end.

(** The result of [evaluateSegments]. *)
Module Segments.
Record Result (Entry : Type) : Type := {
  satisfied : bool;
  matches : list Entry;
  segmentSatisfiedBy : list ExecSegmentSatisfiedBy;
}.
Arguments satisfied {Entry} _.
Arguments matches {Entry} _.
Arguments segmentSatisfiedBy {Entry} _.
End Segments.

Record ExecAllowlistEvaluation (Entry : Type) : Type := {
  allowlistSatisfied : bool;
  allowlistMatches : list Entry;
  segmentSatisfiedBy : list ExecSegmentSatisfiedBy;
}.
Arguments allowlistSatisfied {Entry} _.
Arguments allowlistMatches {Entry} _.
Arguments segmentSatisfiedBy {Entry} _.

(** The result of [evaluateShellAllowlist]. *)
Module Shell.
Record ExecAllowlistAnalysis (Entry : Type) : Type := {
  analysisOk : bool;
  allowlistSatisfied : bool;
  allowlistMatches : list Entry;
  segments : list ExecCommandSegment;
  segmentSatisfiedBy : list ExecSegmentSatisfiedBy;
}.
Arguments analysisOk {Entry} _.
Arguments allowlistSatisfied {Entry} _.
Arguments allowlistMatches {Entry} _.
Arguments segments {Entry} _.
Arguments segmentSatisfiedBy {Entry} _.
End Shell.

(** The fields [allowlist], [safeBins], [cwd], [trustedSafeBinDirs],
    [skillBins] and [autoAllowSkills], which the three evaluators hand on
    unchanged. *)
Record AllowlistParams (Entry : Type) : Type := {
  allowlist : list Entry;
  safeBins : gset string;
  cwd : option string;
  trustedSafeBinDirs : option (gset string);
  skillBins : option (gset string);
  autoAllowSkills : option bool;
}.
Arguments allowlist {Entry} _.
Arguments safeBins {Entry} _.
Arguments cwd {Entry} _.
Arguments trustedSafeBinDirs {Entry} _.
Arguments skillBins {Entry} _.
Arguments autoAllowSkills {Entry} _.

Section Evaluator.
Context `{E : Externals}.

(** The parameter [fileExists] is never read and is left out.  A lookup in
    [SAFE_BIN_PROFILES] under a name that the object only inherits yields a
    value without any of the four profile fields, which the validator
    treats as it treats [SAFE_BIN_GENERIC_PROFILE]. *)
Definition isSafeBinUsage (hostPlatform : string) (argv : list string)
    (resolution : option CommandResolution) (safeBins : gset string)
    (cwd : option string) (trustedSafeBinDirs : option (gset string)) : bool :=
  if isWindowsPlatform (JsValue hostPlatform) then false
  else if Nat.eqb (size safeBins) 0 then false
  else
    match (fun r => toLowerCase (executableName r)) <$> resolution with
    | None => false
    | Some execName =>
        if isEmpty execName then false
        else
          let matchesSafeBin :=
            has safeBins execName
            || ((hostPlatform =? "win32") && has safeBins (pathParseName execName)) in
          if negb matchesSafeBin then false
          else
            match resolution ≫= resolvedPath with
            | None => false
            | Some path =>
                if isEmpty path then false
                else if negb (isTrustedSafeBinPath path trustedSafeBinDirs) then false
                else
                  let argv := tail argv in
                  let profile :=
                    default SAFE_BIN_GENERIC_PROFILE (SAFE_BIN_PROFILES !! execName) in
                  validateSafeBinArgv argv profile
            end
    end.

(** [params.autoAllowSkills === true && (params.skillBins?.size ?? 0) > 0] *)
Definition allowSkills (params : AllowlistParams ExecAllowlistEntry) : bool :=
  match autoAllowSkills params with
  | Some true => Nat.ltb 0 (default 0 (size <$> skillBins params))
  | _ => false
  end.

(** The callback given to [segments.every]: the allowlist match it pushes,
    if any, and the attribution it pushes. *)
Definition evaluateSegment (hostPlatform : string)
    (params : AllowlistParams ExecAllowlistEntry) (segment : ExecCommandSegment)
    : option ExecAllowlistEntry * ExecSegmentSatisfiedBy :=
  let candidatePath := resolveAllowlistCandidatePath (resolution segment) (cwd params) in
  let candidateResolution :=
    match candidatePath, resolution segment with
    | Some p, Some r =>
        if isEmpty p then resolution segment
        else Some {| executableName := executableName r; resolvedPath := Some p |}
    | _, _ => resolution segment
    end in
  let match_ := matchAllowlist (allowlist params) candidateResolution in
  let safe :=
    isSafeBinUsage hostPlatform (argv segment) (resolution segment)
      (safeBins params) (cwd params) (trustedSafeBinDirs params) in
  let skillAllow :=
    match resolution segment with
    | Some r =>
        if allowSkills params && negb (isEmpty (executableName r))
        then default false ((fun bins => has bins (executableName r)) <$> skillBins params)
        else false
    | None => false
    end in
  let by_ :=
    match match_ with
    | Some _ => SatisfiedByAllowlist
    | None =>
        if safe then SatisfiedBySafeBins
        else if skillAllow then SatisfiedBySkills
        else SatisfiedByNull
    end in
  (match_, by_).

(** [segments.every(...)] with the two arrays its callback appends to:
    it stops at the first segment whose attribution is [null]. *)
Fixpoint everySegment (hostPlatform : string)
    (params : AllowlistParams ExecAllowlistEntry)
    (segments : list ExecCommandSegment)
    (matches : list ExecAllowlistEntry)
    (segmentSatisfiedBy : list ExecSegmentSatisfiedBy)
    : Segments.Result ExecAllowlistEntry :=
  match segments with
  | [] =>
      {| Segments.satisfied := true;
         Segments.matches := matches;
         Segments.segmentSatisfiedBy := segmentSatisfiedBy |}
  | segment :: rest =>
      let '(match_, by_) := evaluateSegment hostPlatform params segment in
      let matches := matches ++ option_list match_ in
      let segmentSatisfiedBy := segmentSatisfiedBy ++ [by_] in
      if isSatisfied by_
      then everySegment hostPlatform params rest matches segmentSatisfiedBy
      else
        {| Segments.satisfied := false;
           Segments.matches := matches;
           Segments.segmentSatisfiedBy := segmentSatisfiedBy |}
  end.

Definition evaluateSegments (hostPlatform : string)
    (segments : list ExecCommandSegment)
    (params : AllowlistParams ExecAllowlistEntry)
    : Segments.Result ExecAllowlistEntry :=
  everySegment hostPlatform params segments [] [].

(** The loop over [params.analysis.chains]. *)
Fixpoint evaluateChains (hostPlatform : string)
    (params : AllowlistParams ExecAllowlistEntry)
    (chains : list (list ExecCommandSegment))
    (allowlistMatches : list ExecAllowlistEntry)
    (segmentSatisfiedBy : list ExecSegmentSatisfiedBy)
    : ExecAllowlistEvaluation ExecAllowlistEntry :=
  match chains with
  | [] =>
      {| allowlistSatisfied := true;
         allowlistMatches := allowlistMatches;
         segmentSatisfiedBy := segmentSatisfiedBy |}
  | chainSegments :: rest =>
      let result := evaluateSegments hostPlatform chainSegments params in
      if negb (Segments.satisfied result) then
        {| allowlistSatisfied := false; allowlistMatches := [];
           segmentSatisfiedBy := [] |}
      else
        evaluateChains hostPlatform params rest
          (allowlistMatches ++ Segments.matches result)
          (segmentSatisfiedBy ++ Segments.segmentSatisfiedBy result)
  end.

Definition evaluateExecAllowlist (hostPlatform : string)
    (analysis : ExecCommandAnalysis)
    (params : AllowlistParams ExecAllowlistEntry)
    : ExecAllowlistEvaluation ExecAllowlistEntry :=
  if negb (ok analysis) || Nat.eqb (length (segments analysis)) 0 then
    {| allowlistSatisfied := false; allowlistMatches := [];
       segmentSatisfiedBy := [] |}
  else
    match chains analysis with
    | Some chains => evaluateChains hostPlatform params chains [] []
    | None =>
        let result := evaluateSegments hostPlatform (segments analysis) params in
        {| allowlistSatisfied := Segments.satisfied result;
           allowlistMatches := Segments.matches result;
           segmentSatisfiedBy := Segments.segmentSatisfiedBy result |}
    end.

Definition analysisFailure : Shell.ExecAllowlistAnalysis ExecAllowlistEntry :=
  {| Shell.analysisOk := false;
     Shell.allowlistSatisfied := false;
     Shell.allowlistMatches := [];
     Shell.segments := [];
     Shell.segmentSatisfiedBy := [] |}.

(** The loop over [chainParts]; [accMatches], [accSegments] and
    [accSatisfiedBy] are the arrays [allowlistMatches], [segments] and
    [segmentSatisfiedBy] it appends to. *)
Fixpoint evaluateChainParts (hostPlatform : string)
    (env : option ProcessEnv) (platform : JsOpt string)
    (params : AllowlistParams ExecAllowlistEntry)
    (chainParts : list string)
    (accMatches : list ExecAllowlistEntry)
    (accSegments : list ExecCommandSegment)
    (accSatisfiedBy : list ExecSegmentSatisfiedBy)
    : Shell.ExecAllowlistAnalysis ExecAllowlistEntry :=
  match chainParts with
  | [] =>
      {| Shell.analysisOk := true;
         Shell.allowlistSatisfied := true;
         Shell.allowlistMatches := accMatches;
         Shell.segments := accSegments;
         Shell.segmentSatisfiedBy := accSatisfiedBy |}
  | part :: rest =>
      let analysis := analyzeShellCommand part (cwd params) env platform in
      if negb (ok analysis) then analysisFailure
      else
        let accSegments := accSegments ++ segments analysis in
        let evaluation := evaluateExecAllowlist hostPlatform analysis params in
        let accMatches := accMatches ++ allowlistMatches evaluation in
        let accSatisfiedBy := accSatisfiedBy ++ segmentSatisfiedBy evaluation in
        if negb (allowlistSatisfied evaluation) then
          {| Shell.analysisOk := true;
             Shell.allowlistSatisfied := false;
             Shell.allowlistMatches := accMatches;
             Shell.segments := accSegments;
             Shell.segmentSatisfiedBy := accSatisfiedBy |}
        else
          evaluateChainParts hostPlatform env platform params rest
            accMatches accSegments accSatisfiedBy
  end.

Definition evaluateShellAllowlist (hostPlatform : string)
    (command : string) (env : option ProcessEnv) (platform : JsOpt string)
    (params : AllowlistParams ExecAllowlistEntry)
    : Shell.ExecAllowlistAnalysis ExecAllowlistEntry :=
  let chainParts :=
    if isWindowsPlatform platform then None else splitCommandChain command in
  match chainParts with
  | None =>
      let analysis := analyzeShellCommand command (cwd params) env platform in
      if negb (ok analysis) then analysisFailure
      else
        let evaluation := evaluateExecAllowlist hostPlatform analysis params in
        {| Shell.analysisOk := true;
           Shell.allowlistSatisfied := allowlistSatisfied evaluation;
           Shell.allowlistMatches := allowlistMatches evaluation;
           Shell.segments := segments analysis;
           Shell.segmentSatisfiedBy := segmentSatisfiedBy evaluation |}
  | Some chainParts =>
      evaluateChainParts hostPlatform env platform params chainParts [] [] []
  end.

End Evaluator.

(** ** Vocabulary of the properties *)

(** The state of the validator's outer loop at the start of its [n]-th
    iteration (the remaining tokens and the positional tokens collected so
    far), when the loop gets that far. *)
Fixpoint scanState (profile : SafeBinProfile) (n : nat) (args : list string)
    (positional : list string) : option (list string * list string) :=
  match n with
  | O => Some (args, positional)
  | S n' =>
      match args with
      | [] => None
      | token :: rest =>
          match loopBody profile token rest positional with
          | Continue skipNext positional' =>
              scanState profile n' (if skipNext then tail rest else rest) positional'
          | _ => None
          end
      end
  end.

Definition units (s : string) : list ascii := list_ascii_of_string s.

Definition shortFlag (c : ascii) : string := String "-" (String c EmptyString).

Definition valueFlagsOf (profile : SafeBinProfile) : gset string :=
  default ∅ (valueFlags profile).

Definition blockedFlagsOf (profile : SafeBinProfile) : gset string :=
  default ∅ (blockedFlags profile).

(** A token contains one of the glob characters. *)
Definition containsGlob (token : string) : Prop :=
  exists c, In c (units token) /\ In c ["*"; "?"; "["; "]"]%char.

(** A token, once trimmed, starts with [./], [../], [~], [/] or a
    drive-letter prefix. *)
Definition pathLike (token : string) : Prop :=
  let t := trim token in
  (exists r, t = "./" +:+ r) \/ (exists r, t = "../" +:+ r)
  \/ (exists r, t = "~" +:+ r) \/ (exists r, t = "/" +:+ r)
  \/ (exists l sep r,
        t = String l (String ":" (String sep r))
        /\ isAsciiLetter l = true /\ (sep = "\"%char \/ sep = "/"%char)).

(** The chain of early returns of [isPathLikeToken] is one disjunction over
    the trimmed token: neither the empty string nor [-] has any of the
    prefixes. *)
Definition hasPathPrefix (t : string) : bool :=
  startsWith t "./" || startsWith t "../" || startsWith t "~"
  || startsWith t "/" || driveLetterPrefix t.

(** A safe literal, in the words of the specification. *)
Definition safeLiteral (token : string) : Prop :=
  token = "" \/ token = "-" \/ (~ containsGlob token /\ ~ pathLike token).

(** The iteration at [token], followed by [rest], handles a positional
    token or a value consumed by a value-flag that is not a safe literal. *)
Inductive UnsafeOperand (profile : SafeBinProfile) : string -> list string -> Prop :=
| UnsafePositional (token : string) (rest : list string) :
    startsWith token "-" = false ->
    ~ safeLiteral token ->
    UnsafeOperand profile token rest
| UnsafeAfterDoubleDash (r : string) (rest : list string) :
    In r rest ->
    ~ safeLiteral r ->
    UnsafeOperand profile "--" rest
| UnsafeLongInlineValue (name value : string) (rest : list string) :
    startsWith name "--" = true ->
    ~ In "="%char (units name) ->
    ~ safeLiteral value ->
    UnsafeOperand profile (name +:+ "=" +:+ value) rest
| UnsafeLongNextValue (flag value : string) (rest : list string) :
    startsWith flag "--" = true ->
    flag <> "--" ->
    ~ In "="%char (units flag) ->
    flag ∈ valueFlagsOf profile ->
    ~ safeLiteral value ->
    UnsafeOperand profile flag (value :: rest)
| UnsafeShortInlineValue (before : string) (c : ascii) (value : string)
    (rest : list string) :
    startsWith ("-" +:+ before +:+ String c value) "--" = false ->
    (forall x, In x (units before) -> shortFlag x ∉ valueFlagsOf profile) ->
    shortFlag c ∈ valueFlagsOf profile ->
    value <> "" ->
    ~ safeLiteral value ->
    UnsafeOperand profile ("-" +:+ before +:+ String c value) rest
| UnsafeShortNextValue (before : string) (c : ascii) (value : string)
    (rest : list string) :
    startsWith ("-" +:+ before +:+ String c "") "--" = false ->
    (forall x, In x (units before) -> shortFlag x ∉ valueFlagsOf profile) ->
    shortFlag c ∈ valueFlagsOf profile ->
    ~ safeLiteral value ->
    UnsafeOperand profile ("-" +:+ before +:+ String c "") (value :: rest).

(** The token is a long flag whose name, the part before any inline
    [=value], is blocked, or a short-flag cluster with a blocked character
    that no value-flag character precedes. *)
Inductive BlockedFlag (profile : SafeBinProfile) : string -> Prop :=
| BlockedLongBare (flag : string) :
    startsWith flag "--" = true ->
    flag <> "--" ->
    ~ In "="%char (units flag) ->
    flag ∈ blockedFlagsOf profile ->
    BlockedFlag profile flag
| BlockedLongInline (name value : string) :
    startsWith name "--" = true ->
    ~ In "="%char (units name) ->
    name ∈ blockedFlagsOf profile ->
    BlockedFlag profile (name +:+ "=" +:+ value)
| BlockedShort (before : string) (c : ascii) (after : string) :
    startsWith ("-" +:+ before +:+ String c after) "--" = false ->
    (forall x, In x (units before) -> shortFlag x ∉ valueFlagsOf profile) ->
    shortFlag c ∈ blockedFlagsOf profile ->
    BlockedFlag profile ("-" +:+ before +:+ String c after).

(** The branch of the loop body taken by a long flag. *)
Definition longFlagBranch (profile : SafeBinProfile) (token : string)
    (rest positional : list string) : Iteration :=
  let eqIndex := indexOf token "=" in
  let flag := if (0 <? eqIndex)%Z then slice token 0 (Some eqIndex) else token in
  if has (blockedFlagsOf profile) flag then ReturnFalse
  else if (0 <? eqIndex)%Z then
    if negb (isSafeLiteralToken (slice token (eqIndex + 1) None)) then ReturnFalse
    else Continue false positional
  else if negb (has (valueFlagsOf profile) flag) then Continue false positional
  else if negb (nextValueAccepted rest) then ReturnFalse
  else Continue true positional.

(** The branch taken by a short-flag cluster. *)
Definition clusterBranch (profile : SafeBinProfile) (token : string)
    (rest positional : list string) : Iteration :=
  match scanCluster (valueFlagsOf profile) (blockedFlagsOf profile)
          (slice token 1 None) with
  | ClusterRejected => ReturnFalse
  | ClusterInlineValue => Continue false positional
  | ClusterNextValue =>
      if negb (nextValueAccepted rest) then ReturnFalse
      else Continue true positional
  | ClusterNoValue =>
      if hasGlobToken token then ReturnFalse else Continue false positional
  end.

Section EvaluatorVocabulary.
Context `{E : Externals}.

(** The attribution a segment resolves to. *)
Definition resolvesTo (hostPlatform : string)
    (params : AllowlistParams ExecAllowlistEntry) (segment : ExecCommandSegment)
    : ExecSegmentSatisfiedBy :=
  snd (evaluateSegment hostPlatform params segment).

(** The allowlist entry a segment matches, if any. *)
Definition matchOf (hostPlatform : string)
    (params : AllowlistParams ExecAllowlistEntry) (segment : ExecCommandSegment)
    : option ExecAllowlistEntry :=
  fst (evaluateSegment hostPlatform params segment).

(** The segments of a pipeline up to and including the first one that
    resolves to [null]. *)
Fixpoint evaluatedSegments (hostPlatform : string)
    (params : AllowlistParams ExecAllowlistEntry)
    (segments : list ExecCommandSegment) : list ExecCommandSegment :=
  match segments with
  | [] => []
  | segment :: rest =>
      if isSatisfied (resolvesTo hostPlatform params segment)
      then segment :: evaluatedSegments hostPlatform params rest
      else [segment]
  end.

(** Two host platforms that the module cannot tell apart: it reads
    [process.platform] only in [isWindowsPlatform(process.platform)] and in
    [process.platform === "win32"]. *)
Definition sameHostView (host1 host2 : string) : Prop :=
  isWindowsPlatform (JsValue host1) = isWindowsPlatform (JsValue host2)
  /\ (host1 =? "win32") = (host2 =? "win32").

(** The result that denies and reports nothing. *)
Definition denied : ExecAllowlistEvaluation ExecAllowlistEntry :=
  {| allowlistSatisfied := false; allowlistMatches := [];
     segmentSatisfiedBy := [] |}.

End EvaluatorVocabulary.

(** ** Stand-ins for the external collaborators

    A small, fixed implementation of the imported functions, used to run
    the evaluator on concrete commands: commands are split on [;] into
    chain parts, on [|] into segments and on blanks into words; every
    executable resolves into [/usr/bin], which is the one trusted
    directory; an allowlist entry is a resolved path. *)

Module Fixture.

Fixpoint splitOn (sep : ascii) (s : string) : list string :=
  match s with
  | EmptyString => [EmptyString]
  | String c s' =>
      if Ascii.eqb c sep then EmptyString :: splitOn sep s'
      else
        match splitOn sep s' with
        | w :: ws => String c w :: ws
        | [] => [String c EmptyString]
        end
  end.

Definition words (s : string) : list string :=
  List.filter (fun w => negb (isEmpty w)) (splitOn " " s).

Definition resolve (name : string) : CommandResolution :=
  {| executableName := name; resolvedPath := Some ("/usr/bin/" +:+ name) |}.

Definition segmentOf (text : string) : ExecCommandSegment :=
  {| argv := words text; resolution := resolve <$> head (words text) |}.

Definition analyze (command : string) : ExecCommandAnalysis :=
  let segs := List.map segmentOf (splitOn "|" command) in
  {| ok := forallb (fun s => negb (Nat.eqb (length (argv s)) 0)) segs;
     segments := segs;
     chains := None |}.

Definition isWindows (platform : JsOpt string) : bool :=
  match platform with
  | JsValue p => startsWith (toLowerCase (trim p)) "win"
  | _ => false
  end.

Definition splitChain (command : string) : option (list string) :=
  match splitOn ";" command with
  | [_] => None
  | parts => Some parts
  end.

Definition matchPath (entries : list string) (resolution : option CommandResolution)
    : option string :=
  match resolution ≫= resolvedPath with
  | Some p => List.find (String.eqb p) entries
  | None => None
  end.

#[export] Instance externals : Externals :=
  {| ExecAllowlistEntry := string;
     ProcessEnv := unit;
     analyzeShellCommand := fun command _ _ _ => analyze command;
     isWindowsPlatform := isWindows;
     matchAllowlist := matchPath;
     resolveAllowlistCandidatePath := fun resolution _ => resolution ≫= resolvedPath;
     splitCommandChain := splitChain;
     isTrustedSafeBinPath := fun path _ => startsWith path "/usr/bin/";
     pathParseName := fun name => default name (head (splitOn "." name)) |}.

(** Safe bins [head] and [grep], nothing on the allowlist, no skills. *)
Definition safeBinsOnly : AllowlistParams string :=
  {| allowlist := []; safeBins := list_to_set ["head"; "grep"]; cwd := None;
     trustedSafeBinDirs := None; skillBins := None; autoAllowSkills := None |}.

(** The same with [/usr/bin/ls] on the allowlist. *)
Definition withAllowlistedLs : AllowlistParams string :=
  {| allowlist := ["/usr/bin/ls"]; safeBins := list_to_set ["head"; "grep"];
     cwd := None; trustedSafeBinDirs := None; skillBins := None;
     autoAllowSkills := None |}.

Definition headSegment : ExecCommandSegment := segmentOf "head -n 5".
Definition lsSegment : ExecCommandSegment := segmentOf "ls".
Definition rmSegment : ExecCommandSegment := segmentOf "rm -rf x".

(** [ls ; rm -rf x] as the analyser reports a chained command. *)
Definition chained : ExecCommandAnalysis :=
  {| ok := true; segments := [lsSegment; rmSegment];
     chains := Some [[lsSegment]; [rmSegment]] |}.

(** An analysis that failed, although it lists a segment and a chain. *)
Definition failed : ExecCommandAnalysis :=
  {| ok := false; segments := [rmSegment]; chains := Some [[rmSegment]] |}.

(** An analysis whose [chains] is the empty array. *)
Definition emptyChains : ExecCommandAnalysis :=
  {| ok := true; segments := [rmSegment]; chains := Some [] |}.

End Fixture.

(** ** Vocabulary of the further properties *)

(** The token is a value-flag left to take its value from the next token:
    a long flag of [valueFlags] without inline value, or a short-flag
    cluster whose last character is its first value-flag character. *)
Inductive AwaitsValue (profile : SafeBinProfile) : string -> Prop :=
| AwaitsLong (flag : string) :
    startsWith flag "--" = true ->
    flag <> "--" ->
    ~ In "="%char (units flag) ->
    flag ∈ valueFlagsOf profile ->
    AwaitsValue profile flag
| AwaitsShort (before : string) (c : ascii) :
    startsWith ("-" +:+ before +:+ String c "") "--" = false ->
    (forall x, In x (units before) -> shortFlag x ∉ valueFlagsOf profile) ->
    shortFlag c ∈ valueFlagsOf profile ->
    AwaitsValue profile ("-" +:+ before +:+ String c "").

(** [args[i + 1]] is missing or is the empty string. *)
Definition noNextValue (rest : list string) : Prop :=
  rest = [] \/ exists rest', rest = "" :: rest'.

(** Two profiles that differ at most in that the second blocks more. *)
Definition blocksMore (profile profile' : SafeBinProfile) : Prop :=
  minPositional profile' = minPositional profile
  /\ maxPositional profile' = maxPositional profile
  /\ valueFlagsOf profile' = valueFlagsOf profile
  /\ blockedFlagsOf profile ⊆ blockedFlagsOf profile'.

(** A counted positional token: not empty, not [-], a safe literal. *)
Definition countable (token : string) : Prop :=
  token <> "" /\ token <> "-" /\ isSafeLiteralToken token = true.

Definition isAllowlist (by_ : ExecSegmentSatisfiedBy) : bool :=
  match by_ with
  | SatisfiedByAllowlist => true
  | _ => false
  end.

(** The segments [evaluateExecAllowlist] looks at: those of the chain
    parts when the analysis has chains, its segments otherwise. *)
Definition analysisSegments (analysis : ExecCommandAnalysis)
    : list ExecCommandSegment :=
  match chains analysis with
  | Some parts => concat parts
  | None => segments analysis
  end.

Section ChainPartVocabulary.
Context `{E : Externals}.

(** What [evaluateShellAllowlist] computes for one chain part: its
    analysis, the evaluation of that analysis, and whether the loop goes
    on to the next part. *)
Definition partAnalysis (env : option ProcessEnv) (platform : JsOpt string)
    (params : AllowlistParams ExecAllowlistEntry) (part : string)
    : ExecCommandAnalysis :=
  analyzeShellCommand part (cwd params) env platform.

Definition partEvaluation (hostPlatform : string) (env : option ProcessEnv)
    (platform : JsOpt string) (params : AllowlistParams ExecAllowlistEntry)
    (part : string) : ExecAllowlistEvaluation ExecAllowlistEntry :=
  evaluateExecAllowlist hostPlatform (partAnalysis env platform params part) params.

Definition partPasses (hostPlatform : string) (env : option ProcessEnv)
    (platform : JsOpt string) (params : AllowlistParams ExecAllowlistEntry)
    (part : string) : bool :=
  ok (partAnalysis env platform params part)
  && allowlistSatisfied (partEvaluation hostPlatform env platform params part).

(** What the parts of a list append to the three arrays of the loop. *)
Definition partsMatches (hostPlatform : string) (env : option ProcessEnv)
    (platform : JsOpt string) (params : AllowlistParams ExecAllowlistEntry)
    (parts : list string) : list ExecAllowlistEntry :=
  concat (List.map (fun part =>
    allowlistMatches (partEvaluation hostPlatform env platform params part)) parts).

Definition partsSegments (env : option ProcessEnv) (platform : JsOpt string)
    (params : AllowlistParams ExecAllowlistEntry) (parts : list string)
    : list ExecCommandSegment :=
  concat (List.map (fun part => segments (partAnalysis env platform params part)) parts).

Definition partsTrail (hostPlatform : string) (env : option ProcessEnv)
    (platform : JsOpt string) (params : AllowlistParams ExecAllowlistEntry)
    (parts : list string) : list ExecSegmentSatisfiedBy :=
  concat (List.map (fun part =>
    segmentSatisfiedBy (partEvaluation hostPlatform env platform params part)) parts).

(** The analyses [evaluateShellAllowlist] asks for on a command: one per
    chain part, or one for the whole command when it is not split. *)
Definition commandAnalyses (command : string) (env : option ProcessEnv)
    (platform : JsOpt string) (params : AllowlistParams ExecAllowlistEntry)
    : list ExecCommandAnalysis :=
  match (if isWindowsPlatform platform then None else splitCommandChain command) with
  | Some chainParts => List.map (partAnalysis env platform params) chainParts
  | None => [partAnalysis env platform params command]
  end.

(** The segments of a command: those its analyses hand to the evaluator. *)
Definition commandSegments (command : string) (env : option ProcessEnv)
    (platform : JsOpt string) (params : AllowlistParams ExecAllowlistEntry)
    : list ExecCommandSegment :=
  concat (List.map analysisSegments (commandAnalyses command env platform params)).

(** The attribution is that of one of the segments [among]. *)
Definition attributionIn (hostPlatform : string)
    (params : AllowlistParams ExecAllowlistEntry)
    (among : list ExecCommandSegment) (by_ : ExecSegmentSatisfiedBy) : Prop :=
  exists segment, In segment among /\ by_ = resolvesTo hostPlatform params segment.

End ChainPartVocabulary.

(** Parameters and analyses for running the further properties. *)
Module Samples.

(** No allowlist, no safe bins; the skill [deploy] is allowed. *)
Definition skillsOnly : AllowlistParams string :=
  {| allowlist := []; safeBins := ∅; cwd := None; trustedSafeBinDirs := None;
     skillBins := Some {["deploy"]}; autoAllowSkills := Some true |}.

(** [grep -e x | head -n 5 ; head -n 1] as a chained analysis. *)
Definition safeChain : ExecCommandAnalysis :=
  {| ok := true;
     segments := [Fixture.segmentOf "grep -e x"; Fixture.headSegment;
                  Fixture.segmentOf "head -n 1"];
     chains := Some [[Fixture.segmentOf "grep -e x"; Fixture.headSegment];
                     [Fixture.segmentOf "head -n 1"]] |}.

(** An analyser that reports chains for a command with top-level [;]: the
    segments of each part as one chain, all of them as its segments. *)
Definition analyzeWithChains (command : string) : ExecCommandAnalysis :=
  match Fixture.splitChain command with
  | None => Fixture.analyze command
  | Some parts =>
      let analyses := List.map Fixture.analyze parts in
      {| ok := forallb ok analyses;
         segments := concat (List.map segments analyses);
         chains := Some (List.map segments analyses) |}
  end.

(** The stand-ins of [Fixture] with that analyser. *)
#[export] Instance chainAware : Externals :=
  {| ExecAllowlistEntry := string;
     ProcessEnv := unit;
     analyzeShellCommand := fun command _ _ _ => analyzeWithChains command;
     isWindowsPlatform := Fixture.isWindows;
     matchAllowlist := Fixture.matchPath;
     resolveAllowlistCandidatePath := fun resolution _ => resolution ≫= resolvedPath;
     splitCommandChain := Fixture.splitChain;
     isTrustedSafeBinPath := fun path _ => startsWith path "/usr/bin/";
     pathParseName := fun name => default name (head (Fixture.splitOn "." name)) |}.

End Samples.

(** * Properties *)

(** String concatenation computes on its first argument in the proofs
    below. *)
#[local] Arguments String.append !_ _ / : simpl nomatch.

(** ** Strings *)

Lemma startsWith_spec (s p : string) :
  startsWith s p = true <-> exists r, s = p +:+ r.
Proof.
  unfold startsWith. revert s.
  induction p as [|a p IH]; intros s; simpl.
  - split; [intros _; exists s; reflexivity | intros _; now destruct s].
  - destruct s as [|b s].
    + split; [discriminate | intros [r Hr]; discriminate].
    + simpl. destruct (ascii_dec a b) as [->|Hne].
      * rewrite IH. split; intros [r Hr]; exists r; simpl in *; congruence.
      * split; [discriminate | intros [r Hr]; simpl in Hr; congruence].
Qed.

Lemma startsWith_app (p r : string) : startsWith (p +:+ r) p = true.
Proof. apply startsWith_spec. exists r. reflexivity. Qed.

Lemma isEmpty_true (s : string) : isEmpty s = true <-> s = "".
Proof. destruct s; simpl; split; congruence. Qed.

Lemma isEmpty_false (s : string) : isEmpty s = false <-> s <> "".
Proof. destruct s; simpl; split; congruence. Qed.

Lemma drop_app_length (a b : string) : drop (String.length a) (a +:+ b) = b.
Proof. induction a as [|c a IH]; simpl; [now destruct b | exact IH]. Qed.

Lemma take_app_length (a b : string) : take (String.length a) (a +:+ b) = a.
Proof. induction a as [|c a IH]; simpl; [now destruct b | now rewrite IH]. Qed.

Lemma indexOfFrom_absent (c : ascii) (s : string) (i : Z) :
  ~ In c (units s) -> indexOfFrom c s i = (-1)%Z.
Proof.
  revert i. induction s as [|d s IH]; intros i Hnot; simpl; [reflexivity|].
  destruct (Ascii.eqb_spec d c) as [->|Hne].
  - exfalso. apply Hnot. left. reflexivity.
  - apply IH. intros Hin. apply Hnot. right. exact Hin.
Qed.

Lemma indexOfFrom_first (c : ascii) (a b : string) (i : Z) :
  ~ In c (units a) ->
  indexOfFrom c (a +:+ String c b) i = (i + Z.of_nat (String.length a))%Z.
Proof.
  revert i. induction a as [|d a IH]; intros i Hnot; simpl.
  - rewrite Ascii.eqb_refl. lia.
  - destruct (Ascii.eqb_spec d c) as [->|Hne].
    + exfalso. apply Hnot. left. reflexivity.
    + rewrite IH; [lia|]. intros Hin. apply Hnot. right. exact Hin.
Qed.

Lemma indexOf_absent (s : string) (c : ascii) :
  ~ In c (units s) -> indexOf s c = (-1)%Z.
Proof. apply indexOfFrom_absent. Qed.

Lemma indexOf_first (a b : string) (c : ascii) :
  ~ In c (units a) -> indexOf (a +:+ String c b) c = Z.of_nat (String.length a).
Proof. intros H. unfold indexOf. now rewrite indexOfFrom_first. Qed.

Lemma slice_before (a b : string) (c : ascii) :
  slice (a +:+ String c b) 0 (Some (Z.of_nat (String.length a))) = a.
Proof.
  unfold slice. simpl. rewrite Z.sub_0_r, Nat2Z.id. apply take_app_length.
Qed.

Lemma slice_after (a b : string) (c : ascii) :
  slice (a +:+ String c b) (Z.of_nat (String.length a) + 1) None = b.
Proof.
  unfold slice.
  replace (Z.to_nat (Z.of_nat (String.length a) + 1)) with (S (String.length a)) by lia.
  induction a as [|d a IH]; simpl; [now destruct b | exact IH].
Qed.

Lemma long_flag_length (name : string) :
  startsWith name "--" = true -> (0 < Z.of_nat (String.length name))%Z.
Proof.
  intros H. apply startsWith_spec in H as [r ->]. simpl. lia.
Qed.

(** ** The classifier agrees with the specification's wording *)

Lemma isGlobUnit_spec (c : ascii) :
  isGlobUnit c = true <-> In c ["*"; "?"; "["; "]"]%char.
Proof.
  unfold isGlobUnit. rewrite !orb_true_iff, !Ascii.eqb_eq. simpl.
  intuition congruence.
Qed.

Lemma hasGlobToken_spec (token : string) :
  hasGlobToken token = true <-> containsGlob token.
Proof.
  unfold hasGlobToken, containsGlob, units.
  induction token as [|c token IH]; simpl.
  - split; [discriminate | intros (c & [] & _)].
  - rewrite orb_true_iff, IH, isGlobUnit_spec. split.
    + intros [Hc | (d & Hd & Hg)]; [exists c | exists d]; auto.
    + intros (d & [<- | Hd] & Hg); [left | right; exists d]; auto.
Qed.

Lemma driveLetterPrefix_spec (t : string) :
  driveLetterPrefix t = true <->
  exists l sep r,
    t = String l (String ":" (String sep r))
    /\ isAsciiLetter l = true /\ (sep = "\"%char \/ sep = "/"%char).
Proof.
  destruct t as [|l [|colon [|sep r]]]; simpl;
    try (split; [discriminate | intros (? & ? & ? & Heq & _); discriminate]).
  rewrite !andb_true_iff, orb_true_iff, !Ascii.eqb_eq. split.
  - intros [[Hl ->] Hsep]. exists l, sep, r. auto.
  - intros (l' & sep' & r' & Heq & Hl & Hsep). injection Heq as -> -> ->. auto.
Qed.

Lemma isPathLikeToken_prefix (token : string) :
  isPathLikeToken token = hasPathPrefix (trim token).
Proof.
  unfold isPathLikeToken, hasPathPrefix.
  destruct (isEmpty (trim token)) eqn:Hempty.
  - apply isEmpty_true in Hempty. rewrite Hempty. reflexivity.
  - destruct (String.eqb_spec (trim token) "-") as [Hdash|_].
    + rewrite Hdash. reflexivity.
    + destruct (startsWith (trim token) "./"), (startsWith (trim token) "../"),
        (startsWith (trim token) "~"), (startsWith (trim token) "/"); reflexivity.
Qed.

Lemma isPathLikeToken_spec (token : string) :
  isPathLikeToken token = true <-> pathLike token.
Proof.
  rewrite isPathLikeToken_prefix. unfold hasPathPrefix, pathLike.
  rewrite !orb_true_iff, !startsWith_spec, driveLetterPrefix_spec. tauto.
Qed.

Lemma isSafeLiteralToken_spec (token : string) :
  isSafeLiteralToken token = true <-> safeLiteral token.
Proof.
  unfold isSafeLiteralToken, safeLiteral.
  destruct (isEmpty token) eqn:Hempty; simpl.
  - apply isEmpty_true in Hempty. tauto.
  - apply isEmpty_false in Hempty.
    destruct (String.eqb_spec token "-") as [Hdash|Hdash]; [tauto|].
    rewrite andb_true_iff, !negb_true_iff.
    rewrite <- hasGlobToken_spec, <- isPathLikeToken_spec.
    destruct (hasGlobToken token), (isPathLikeToken token); intuition congruence.
Qed.

Lemma not_safeLiteral (token : string) :
  ~ safeLiteral token <-> isSafeLiteralToken token = false.
Proof.
  rewrite <- isSafeLiteralToken_spec.
  destruct (isSafeLiteralToken token); split; congruence.
Qed.

(** ** The argv validator, one iteration at a time *)

Lemma has_true (set : gset string) (x : string) : has set x = true <-> x ∈ set.
Proof. unfold has. apply bool_decide_eq_true. Qed.

Lemma has_false (set : gset string) (x : string) : has set x = false <-> x ∉ set.
Proof. unfold has. apply bool_decide_eq_false. Qed.

(** An iteration that continues hands the loop on to the state that
    [scanState] records. *)
Lemma scanState_scanArgs (profile : SafeBinProfile) (n : nat) :
  forall args positional args' positional',
    scanState profile n args positional = Some (args', positional') ->
    scanArgs profile args positional = scanArgs profile args' positional'.
Proof.
  induction n as [|n IH]; intros args positional args' positional' Hstate.
  - simpl in Hstate. now injection Hstate as <- <-.
  - destruct args as [|token rest]; [discriminate|].
    simpl in Hstate |- *.
    destruct (loopBody profile token rest positional) as [| |skipNext p];
      try discriminate.
    apply IH in Hstate. destruct skipNext; [|exact Hstate].
    destruct rest; exact Hstate.
Qed.

Lemma scan_rejected (profile : SafeBinProfile) (n : nat) (args : list string)
    (token : string) (rest positional : list string) :
  scanState profile n args [] = Some (token :: rest, positional) ->
  loopBody profile token rest positional = ReturnFalse ->
  validateSafeBinArgv args profile = false.
Proof.
  intros Hstate Hbody. unfold validateSafeBinArgv.
  rewrite (scanState_scanArgs _ _ _ _ _ _ Hstate). simpl. now rewrite Hbody.
Qed.

Lemma startsWith_dash (token : string) :
  startsWith token "--" = true -> startsWith token "-" = true.
Proof.
  rewrite !startsWith_spec. intros [r ->]. exists ("-" +:+ r). reflexivity.
Qed.

Lemma loopBody_long (profile : SafeBinProfile) (token : string)
    (rest positional : list string) :
  startsWith token "--" = true ->
  token <> "--" ->
  loopBody profile token rest positional
  = longFlagBranch profile token rest positional.
Proof.
  intros Hlong Hne. pose proof (startsWith_dash _ Hlong) as Hdash.
  unfold loopBody, longFlagBranch, valueFlagsOf, blockedFlagsOf, NO_FLAGS.
  destruct token as [|a token]; [discriminate|]. simpl isEmpty. cbv iota.
  destruct (String.eqb_spec (String a token) "--") as [|_]; [contradiction|].
  destruct (String.eqb_spec (String a token) "-") as [Heq|_].
  - rewrite Heq in Hlong. discriminate.
  - rewrite Hdash, Hlong. reflexivity.
Qed.

Lemma loopBody_cluster (profile : SafeBinProfile) (token : string)
    (rest positional : list string) :
  startsWith token "-" = true ->
  startsWith token "--" = false ->
  token <> "-" ->
  loopBody profile token rest positional
  = clusterBranch profile token rest positional.
Proof.
  intros Hdash Hshort Hne.
  unfold loopBody, clusterBranch, valueFlagsOf, blockedFlagsOf, NO_FLAGS.
  destruct token as [|a token]; [discriminate|]. simpl isEmpty. cbv iota.
  destruct (String.eqb_spec (String a token) "--") as [Heq|_].
  - rewrite Heq in Hshort. discriminate.
  - destruct (String.eqb_spec (String a token) "-") as [|_]; [contradiction|].
    rewrite Hdash, Hshort. reflexivity.
Qed.

(** The characters of a cluster that are not value flags are either
    blocked, which rejects, or passed over. *)
Lemma scanCluster_passes (vflags bflags : gset string) (before after : string) :
  (forall x, In x (units before) -> shortFlag x ∉ vflags) ->
  scanCluster vflags bflags (before +:+ after) = ClusterRejected
  \/ scanCluster vflags bflags (before +:+ after) = scanCluster vflags bflags after.
Proof.
  induction before as [|x before IH]; intros Hnone; simpl; [now right|].
  fold (shortFlag x).
  destruct (has bflags (shortFlag x)); [now left|].
  assert (Hx : has vflags (shortFlag x) = false).
  { apply has_false, Hnone. left. reflexivity. }
  rewrite Hx. simpl. apply IH. intros y Hy. apply Hnone. right. exact Hy.
Qed.

Lemma scanAfterDoubleDash_unsafe (r : string) (rest : list string) :
  In r rest -> isSafeLiteralToken r = false ->
  forall positional, scanAfterDoubleDash rest positional = None.
Proof.
  intros Hin Hunsafe.
  induction rest as [|r0 rest IH]; intros positional; [destruct Hin|].
  simpl. destruct (isEmpty r0 || (r0 =? "-")) eqn:Hskip.
  - destruct Hin as [->|Hin]; [|now apply IH].
    unfold isSafeLiteralToken in Hunsafe. rewrite Hskip in Hunsafe. discriminate.
  - destruct (isSafeLiteralToken r0) eqn:Hr0; simpl; [|reflexivity].
    destruct Hin as [->|Hin]; [congruence | now apply IH].
Qed.

Lemma nextValueAccepted_unsafe (value : string) (rest : list string) :
  isSafeLiteralToken value = false -> nextValueAccepted (value :: rest) = false.
Proof. intros H. simpl. rewrite H. apply andb_false_r. Qed.

Lemma cluster_token (body : string) :
  startsWith ("-" +:+ body) "--" = false ->
  body <> "" ->
  startsWith ("-" +:+ body) "-" = true /\ "-" +:+ body <> "-"
  /\ slice ("-" +:+ body) 1 None = body.
Proof.
  intros _ Hbody. repeat split.
  - apply startsWith_app.
  - destruct body; [contradiction | discriminate].
Qed.

Lemma app_cons_nonempty (before : string) (c : ascii) (after : string) :
  before +:+ String c after <> "".
Proof. destruct before; discriminate. Qed.

Lemma inline_token_long (name value : string) :
  startsWith name "--" = true ->
  startsWith (name +:+ String "=" value) "--" = true
  /\ name +:+ String "=" value <> "--".
Proof.
  intros Hlong. apply startsWith_spec in Hlong as [r ->]. split.
  - apply startsWith_spec. exists (r +:+ String "=" value). reflexivity.
  - simpl. destruct r; discriminate.
Qed.

Lemma loopBody_unsafe_operand (profile : SafeBinProfile) (token : string)
    (rest positional : list string) :
  UnsafeOperand profile token rest ->
  loopBody profile token rest positional = ReturnFalse.
Proof.
  intros Hunsafe.
  destruct Hunsafe as
    [token rest Hplain Hbad | r rest Hin Hbad | name value rest Hlong Hnoeq Hbad
    | flag value rest Hlong Hne Hnoeq Hvalue Hbad
    | before c value rest Hshort Hnone Hvalue Hinline Hbad
    | before c value rest Hshort Hnone Hvalue Hbad];
    apply not_safeLiteral in Hbad.
  - (* positional token *)
    unfold loopBody.
    destruct token as [|a token]; [discriminate|]. simpl isEmpty. cbv iota.
    destruct (String.eqb_spec (String a token) "--") as [Heq|_];
      [rewrite Heq in Hplain; discriminate|].
    destruct (String.eqb_spec (String a token) "-") as [Heq|_];
      [rewrite Heq in Hplain; discriminate|].
    rewrite Hplain, Hbad. reflexivity.
  - (* token after the double dash *)
    unfold loopBody. simpl.
    now rewrite (scanAfterDoubleDash_unsafe r rest Hin Hbad).
  - (* --name=value *)
    pose proof (long_flag_length _ Hlong) as Hlen.
    change ("=" +:+ value) with (String "=" value).
    destruct (inline_token_long name value Hlong) as [Hlong' Hne].
    rewrite loopBody_long by assumption.
    unfold longFlagBranch.
    rewrite indexOf_first by exact Hnoeq.
    apply Z.ltb_lt in Hlen. rewrite Hlen, slice_before, slice_after, Hbad.
    simpl. now destruct (has (blockedFlagsOf profile) _).
  - (* --flag value *)
    rewrite loopBody_long by assumption. unfold longFlagBranch.
    rewrite indexOf_absent by exact Hnoeq.
    change (0 <? -1)%Z with false. cbv zeta iota.
    apply has_true in Hvalue. rewrite Hvalue.
    rewrite nextValueAccepted_unsafe by exact Hbad.
    simpl. now destruct (has (blockedFlagsOf profile) _).
  - (* -xyVALUE *)
    destruct (cluster_token _ Hshort (app_cons_nonempty before c value))
      as (Hdash & Hne & Hslice).
    rewrite loopBody_cluster by assumption. unfold clusterBranch.
    rewrite Hslice.
    destruct (scanCluster_passes (valueFlagsOf profile) (blockedFlagsOf profile)
                before (String c value) Hnone) as [-> | ->]; [reflexivity|].
    simpl. fold (shortFlag c). apply has_true in Hvalue. rewrite Hvalue.
    apply isEmpty_false in Hinline. rewrite Hinline, Hbad. simpl.
    now destruct (has (blockedFlagsOf profile) _).
  - (* -xy VALUE *)
    destruct (cluster_token _ Hshort (app_cons_nonempty before c ""))
      as (Hdash & Hne & Hslice).
    rewrite loopBody_cluster by assumption. unfold clusterBranch.
    rewrite Hslice.
    destruct (scanCluster_passes (valueFlagsOf profile) (blockedFlagsOf profile)
                before (String c "") Hnone) as [-> | ->]; [reflexivity|].
    simpl scanCluster. fold (shortFlag c). apply has_true in Hvalue. rewrite Hvalue.
    rewrite nextValueAccepted_unsafe by exact Hbad.
    simpl. now destruct (has (blockedFlagsOf profile) _).
Qed.

Lemma loopBody_blocked_flag (profile : SafeBinProfile) (token : string)
    (rest positional : list string) :
  BlockedFlag profile token ->
  loopBody profile token rest positional = ReturnFalse.
Proof.
  intros Hblocked.
  destruct Hblocked as
    [flag Hlong Hne Hnoeq Hin | name value Hlong Hnoeq Hin
    | before c after Hshort Hnone Hin]; apply has_true in Hin.
  - rewrite loopBody_long by assumption. unfold longFlagBranch.
    rewrite indexOf_absent by exact Hnoeq. simpl. now rewrite Hin.
  - pose proof (long_flag_length _ Hlong) as Hlen.
    change ("=" +:+ value) with (String "=" value).
    destruct (inline_token_long name value Hlong) as [Hlong' Hne].
    rewrite loopBody_long by assumption.
    unfold longFlagBranch.
    rewrite indexOf_first by exact Hnoeq.
    apply Z.ltb_lt in Hlen. rewrite Hlen, slice_before. now rewrite Hin.
  - destruct (cluster_token _ Hshort (app_cons_nonempty before c after))
      as (Hdash & Hne & Hslice).
    rewrite loopBody_cluster by assumption. unfold clusterBranch.
    rewrite Hslice.
    destruct (scanCluster_passes (valueFlagsOf profile) (blockedFlagsOf profile)
                before (String c after) Hnone) as [-> | ->]; [reflexivity|].
    simpl. fold (shortFlag c). now rewrite Hin.
Qed.

(** ** The argv validator: operands, blocked flags, positional bounds *)

(** C5.  Whenever the scan arrives at a token that is a positional token
    which is not a safe literal, or at a flag (long with inline value, long
    value-flag, short cluster with inline or following value) whose value is
    not a safe literal, or at [--] followed somewhere by a token which is
    not a safe literal, [validateSafeBinArgv] returns false, for every
    profile.  Here a safe literal is a token that is empty, is exactly [-],
    or neither contains one of the glob characters nor, once trimmed, starts
    with [./], [../], [~], [/] or a drive-letter prefix; [isSafeLiteralToken]
    decides exactly that.  The three examples of the specification hold. *)
Theorem validateSafeBinArgv_rejects_unsafe_operands :
  (forall (profile : SafeBinProfile) (n : nat) (args : list string)
          (token : string) (rest positional : list string),
      scanState profile n args [] = Some (token :: rest, positional) ->
      UnsafeOperand profile token rest ->
      validateSafeBinArgv args profile = false)
  /\ (forall token : string, isSafeLiteralToken token = true <-> safeLiteral token)
  /\ validateSafeBinArgv ["-n"; "5"] headProfile = true
  /\ validateSafeBinArgv ["-n"; "./etc/passwd"] headProfile = false
  /\ validateSafeBinArgv ["a*.txt"] SAFE_BIN_GENERIC_PROFILE = false.
Proof.
  split; [|split; [exact isSafeLiteralToken_spec | now vm_compute]].
  intros profile n args token rest positional Hstate Hunsafe.
  eapply scan_rejected; [exact Hstate|].
  now apply loopBody_unsafe_operand.
Qed.

(** With the [head] profile, [-c 3] is scanned first; the scan then arrives
    at [-n], whose value [./etc/passwd] is path-like. *)
Lemma validateSafeBinArgv_rejects_unsafe_operands_witness :
  scanState headProfile 1 ["-c"; "3"; "-n"; "./etc/passwd"] []
    = Some ("-n" :: ["./etc/passwd"], [])
  /\ UnsafeOperand headProfile "-n" ["./etc/passwd"]
  /\ validateSafeBinArgv ["-c"; "3"; "-n"; "./etc/passwd"] headProfile = false.
Proof.
  assert (Hstate : scanState headProfile 1 ["-c"; "3"; "-n"; "./etc/passwd"] []
                   = Some ("-n" :: ["./etc/passwd"], [])) by (vm_compute; reflexivity).
  assert (Hunsafe : UnsafeOperand headProfile "-n" ["./etc/passwd"]).
  { apply (UnsafeShortNextValue headProfile "" "n" "./etc/passwd" []).
    - vm_compute; reflexivity.
    - intros x [].
    - apply has_true. vm_compute; reflexivity.
    - apply not_safeLiteral. vm_compute; reflexivity. }
  split; [exact Hstate | split; [exact Hunsafe|]].
  exact (proj1 validateSafeBinArgv_rejects_unsafe_operands
           headProfile 1 ["-c"; "3"; "-n"; "./etc/passwd"] "-n" ["./etc/passwd"] []
           Hstate Hunsafe).
Defined.

(** C6.  Whenever the scan arrives at a long flag whose name, the part
    before any inline [=value], is in the profile's [blockedFlags], or at a
    short-flag cluster one of whose characters, read as [-x], is in
    [blockedFlags] with no value-flag character before it,
    [validateSafeBinArgv] returns false; so it does on
    [--files0-from list.txt] with the [wc] profile. *)
Theorem validateSafeBinArgv_rejects_blocked_flags :
  (forall (profile : SafeBinProfile) (n : nat) (args : list string)
          (token : string) (rest positional : list string),
      scanState profile n args [] = Some (token :: rest, positional) ->
      BlockedFlag profile token ->
      validateSafeBinArgv args profile = false)
  /\ validateSafeBinArgv ["--files0-from"; "list.txt"] wcProfile = false.
Proof.
  split; [|now vm_compute].
  intros profile n args token rest positional Hstate Hblocked.
  eapply scan_rejected; [exact Hstate|].
  now apply loopBody_blocked_flag.
Qed.

(** With the [grep] profile, [-e foo] is scanned first; the scan then
    arrives at the cluster [-ir], in which [-r] is blocked. *)
Lemma validateSafeBinArgv_rejects_blocked_flags_witness :
  scanState grepProfile 1 ["-e"; "foo"; "-ir"; "secret"] []
    = Some ("-ir" :: ["secret"], [])
  /\ BlockedFlag grepProfile "-ir"
  /\ validateSafeBinArgv ["-e"; "foo"; "-ir"; "secret"] grepProfile = false.
Proof.
  assert (Hstate : scanState grepProfile 1 ["-e"; "foo"; "-ir"; "secret"] []
                   = Some ("-ir" :: ["secret"], [])) by (vm_compute; reflexivity).
  assert (Hblocked : BlockedFlag grepProfile "-ir").
  { apply (BlockedShort grepProfile "i" "r" "").
    - vm_compute; reflexivity.
    - intros x [<- | []]. apply has_false. vm_compute; reflexivity.
    - apply has_true. vm_compute; reflexivity. }
  split; [exact Hstate | split; [exact Hblocked|]].
  exact (proj1 validateSafeBinArgv_rejects_blocked_flags
           grepProfile 1 ["-e"; "foo"; "-ir"; "secret"] "-ir" ["secret"] []
           Hstate Hblocked).
Defined.

Lemma positionalCountAccepted_false (profile : SafeBinProfile)
    (positional : list string) :
  positionalCountAccepted profile positional = false <->
  (Z.of_nat (length positional) < default 0%Z (minPositional profile))%Z
  \/ exists m, maxPositional profile = Some m /\ (m < Z.of_nat (length positional))%Z.
Proof.
  unfold positionalCountAccepted.
  case_eq (Z.of_nat (length positional) <? default 0%Z (minPositional profile))%Z;
    intros Hmin.
  - apply Z.ltb_lt in Hmin. tauto.
  - apply Z.ltb_ge in Hmin. destruct (maxPositional profile) as [m|].
    + case_eq (m <? Z.of_nat (length positional))%Z; intros Hmax.
      * apply Z.ltb_lt in Hmax. split; [|reflexivity]. right. exists m. tauto.
      * apply Z.ltb_ge in Hmax. split; [discriminate|].
        intros [Hlt | (m' & Hm' & Hlt)]; [lia|]. injection Hm' as <-. lia.
    + split; [discriminate|]. intros [Hlt | (m' & Hm' & _)]; [lia | discriminate].
Qed.

(** C7.  When the scan rejects no token and leaves the loop with the list
    [positional] of counted tokens, [validateSafeBinArgv] returns false
    exactly when the length of that list is below [minPositional] (0 when
    the profile has none) or the profile has a [maxPositional] and the
    length is above it.  The [tr] profile has bounds 1 and 2; it accepts
    [x y] and rejects the empty argument list. *)
Theorem validateSafeBinArgv_positional_bounds :
  (forall (profile : SafeBinProfile) (args positional : list string),
      scanArgs profile args [] = Some positional ->
      validateSafeBinArgv args profile = false <->
      (Z.of_nat (length positional) < default 0%Z (minPositional profile))%Z
      \/ exists m, maxPositional profile = Some m
                   /\ (m < Z.of_nat (length positional))%Z)
  /\ SAFE_BIN_PROFILES !! "tr" = Some trProfile
  /\ minPositional trProfile = Some 1%Z
  /\ maxPositional trProfile = Some 2%Z
  /\ validateSafeBinArgv ["x"; "y"] trProfile = true
  /\ validateSafeBinArgv [] trProfile = false.
Proof.
  split; [|now vm_compute].
  intros profile args positional Hscan. unfold validateSafeBinArgv.
  rewrite Hscan. apply positionalCountAccepted_false.
Qed.

(** Three positional tokens pass the scan of the [tr] profile and exceed
    its upper bound. *)
Lemma validateSafeBinArgv_positional_bounds_witness :
  scanArgs trProfile ["a"; "b"; "c"] [] = Some ["a"; "b"; "c"]
  /\ (validateSafeBinArgv ["a"; "b"; "c"] trProfile = false <->
      (Z.of_nat (length ["a"; "b"; "c"]) < default 0%Z (minPositional trProfile))%Z
      \/ exists m, maxPositional trProfile = Some m
                   /\ (m < Z.of_nat (length ["a"; "b"; "c"]))%Z).
Proof.
  assert (Hscan : scanArgs trProfile ["a"; "b"; "c"] [] = Some ["a"; "b"; "c"])
    by (vm_compute; reflexivity).
  split; [exact Hscan|].
  exact (proj1 validateSafeBinArgv_positional_bounds trProfile
           ["a"; "b"; "c"] ["a"; "b"; "c"] Hscan).
Defined.

(** ** Safe-bin set normalisation *)

Lemma nonempty_length (s : string) : Nat.ltb 0 (String.length s) = true <-> s <> "".
Proof.
  destruct s as [|c s]; cbn.
  - split; [discriminate | intros H; now contradiction H].
  - split; [discriminate | reflexivity].
Qed.

Lemma elem_of_normalizeSafeBins (entries : list string) (x : string) :
  x ∈ normalizeSafeBins (JsValue entries) <->
  x <> "" /\ exists e, In e entries /\ x = toLowerCase (trim e).
Proof.
  unfold normalizeSafeBins.
  rewrite elem_of_list_to_set, list_elem_of_In, filter_In, in_map_iff, nonempty_length.
  split.
  - intros [(e & <- & He) Hne]. eauto.
  - intros [Hne (e & He & ->)]. eauto.
Qed.

(** C9.  [resolveSafeBins(undefined)] is [normalizeSafeBins] of the default
    list; on [null] and on any array, the empty one included,
    [resolveSafeBins] is [normalizeSafeBins] of that value, so it yields
    the empty set on [null]; the set [normalizeSafeBins] builds from an
    array holds exactly the non-empty strings obtained by trimming and
    lower-casing an entry, and it is empty for [undefined] and [null]. *)
Theorem resolveSafeBins_normalizes :
  (forall DEFAULT_SAFE_BINS : list string,
      resolveSafeBins DEFAULT_SAFE_BINS JsUndefined
      = normalizeSafeBins (JsValue DEFAULT_SAFE_BINS)
      /\ resolveSafeBins DEFAULT_SAFE_BINS JsNull = normalizeSafeBins JsNull
      /\ resolveSafeBins DEFAULT_SAFE_BINS JsNull = ∅
      /\ resolveSafeBins DEFAULT_SAFE_BINS (JsValue []) = ∅
      /\ forall entries : list string,
           resolveSafeBins DEFAULT_SAFE_BINS (JsValue entries)
           = normalizeSafeBins (JsValue entries))
  /\ (forall (entries : list string) (x : string),
        x ∈ normalizeSafeBins (JsValue entries) <->
        x <> "" /\ exists e, In e entries /\ x = toLowerCase (trim e))
  /\ normalizeSafeBins JsUndefined = ∅
  /\ normalizeSafeBins JsNull = ∅
  /\ normalizeSafeBins (JsValue ["JQ"; " grep "; ""]) = {["jq"; "grep"]}.
Proof.
  split; [intros D; repeat split; reflexivity|].
  split; [exact elem_of_normalizeSafeBins|].
  split; [reflexivity|]. split; [reflexivity|]. now vm_compute.
Qed.

(** ** Segment and chain evaluation *)

Section EvaluatorFacts.
Context `{E : Externals}.
Implicit Types (hostPlatform : string) (params : AllowlistParams ExecAllowlistEntry).
Implicit Types (segment : ExecCommandSegment) (analysis : ExecCommandAnalysis).

#[local] Arguments evaluateSegment : simpl never.
#[local] Arguments resolvesTo : simpl never.
#[local] Arguments matchOf : simpl never.

(** What [segments.every] leaves in its two arrays and returns. *)
Lemma everySegment_spec hostPlatform params (segments : list ExecCommandSegment) :
  forall matches by_,
    everySegment hostPlatform params segments matches by_
    = {| Segments.satisfied :=
           forallb (fun s => isSatisfied (resolvesTo hostPlatform params s)) segments;
         Segments.matches :=
           matches ++ omap (matchOf hostPlatform params)
                        (evaluatedSegments hostPlatform params segments);
         Segments.segmentSatisfiedBy :=
           by_ ++ List.map (resolvesTo hostPlatform params)
                    (evaluatedSegments hostPlatform params segments) |}.
Proof.
  induction segments as [|segment rest IH]; intros matches by_.
  - simpl. now rewrite !app_nil_r.
  - pose proof (surjective_pairing (evaluateSegment hostPlatform params segment))
      as Hpair.
    fold (matchOf hostPlatform params segment) in Hpair.
    fold (resolvesTo hostPlatform params segment) in Hpair.
    cbn [everySegment evaluatedSegments forallb]. rewrite Hpair.
    destruct (isSatisfied (resolvesTo hostPlatform params segment)).
    + rewrite IH.
      destruct (matchOf hostPlatform params segment) eqn:Hmatch;
        simpl; rewrite Hmatch, <- !app_assoc; reflexivity.
    + destruct (matchOf hostPlatform params segment) eqn:Hmatch;
        simpl; rewrite Hmatch; reflexivity.
Qed.

Lemma evaluateSegments_satisfied hostPlatform params (segments : list ExecCommandSegment) :
  Segments.satisfied (evaluateSegments hostPlatform segments params)
  = forallb (fun s => isSatisfied (resolvesTo hostPlatform params s)) segments.
Proof. unfold evaluateSegments. now rewrite everySegment_spec. Qed.

Lemma evaluateSegments_matches hostPlatform params (segments : list ExecCommandSegment) :
  Segments.matches (evaluateSegments hostPlatform segments params)
  = omap (matchOf hostPlatform params) (evaluatedSegments hostPlatform params segments).
Proof. unfold evaluateSegments. now rewrite everySegment_spec. Qed.

Lemma evaluateSegments_unsatisfied hostPlatform params
    (segments : list ExecCommandSegment) segment :
  In segment segments ->
  resolvesTo hostPlatform params segment = SatisfiedByNull ->
  Segments.satisfied (evaluateSegments hostPlatform segments params) = false.
Proof.
  intros Hin Hnull. rewrite evaluateSegments_satisfied.
  apply not_true_is_false. intros Hall.
  rewrite forallb_forall in Hall. specialize (Hall segment Hin).
  rewrite Hnull in Hall. discriminate.
Qed.

(** The loop over the chain parts either meets an unsatisfied part, and
    then denies and reports nothing, or appends what every part yields. *)
Lemma evaluateChains_spec hostPlatform params (chains : list (list ExecCommandSegment)) :
  forall matches by_,
    evaluateChains hostPlatform params chains matches by_
    = if forallb (fun part =>
                    Segments.satisfied (evaluateSegments hostPlatform part params))
           chains
      then
        {| allowlistSatisfied := true;
           allowlistMatches :=
             matches ++ concat (List.map (fun part =>
               Segments.matches (evaluateSegments hostPlatform part params)) chains);
           segmentSatisfiedBy :=
             by_ ++ concat (List.map (fun part =>
               Segments.segmentSatisfiedBy (evaluateSegments hostPlatform part params))
               chains) |}
      else denied.
Proof.
  induction chains as [|part rest IH]; intros matches by_; simpl.
  - now rewrite !app_nil_r.
  - destruct (Segments.satisfied (evaluateSegments hostPlatform part params)); simpl.
    + rewrite IH. destruct (forallb _ rest); [|reflexivity].
      now rewrite <- !app_assoc.
    + reflexivity.
Qed.

Lemma evaluateExecAllowlist_chained hostPlatform analysis params
    (parts : list (list ExecCommandSegment)) :
  ok analysis = true ->
  segments analysis <> [] ->
  chains analysis = Some parts ->
  evaluateExecAllowlist hostPlatform analysis params
  = evaluateChains hostPlatform params parts [] [].
Proof.
  intros Hok Hsegs Hchains. unfold evaluateExecAllowlist.
  rewrite Hok, Hchains. destruct (segments analysis); [contradiction | reflexivity].
Qed.

Lemma evaluateExecAllowlist_unchained hostPlatform analysis params :
  ok analysis = true ->
  segments analysis <> [] ->
  chains analysis = None ->
  evaluateExecAllowlist hostPlatform analysis params
  = let result := evaluateSegments hostPlatform (segments analysis) params in
    {| allowlistSatisfied := Segments.satisfied result;
       allowlistMatches := Segments.matches result;
       segmentSatisfiedBy := Segments.segmentSatisfiedBy result |}.
Proof.
  intros Hok Hsegs Hchains. unfold evaluateExecAllowlist.
  rewrite Hok, Hchains. destruct (segments analysis); [contradiction | reflexivity].
Qed.

End EvaluatorFacts.

Section EvaluatorClaims.
Context `{E : Externals}.
Implicit Types (hostPlatform : string) (params : AllowlistParams ExecAllowlistEntry).
Implicit Types (segment : ExecCommandSegment) (analysis : ExecCommandAnalysis).

(** C1.  For an analysis that is ok, has segments and has chains, if some
    chain part contains a segment that resolves to [null], then
    [evaluateExecAllowlist] returns [allowlistSatisfied: false] with empty
    [allowlistMatches] and empty [segmentSatisfiedBy]: whatever earlier,
    satisfied chain parts contributed is not in the result. *)
Theorem evaluateExecAllowlist_unsatisfied_chain_part
    hostPlatform analysis params (parts : list (list ExecCommandSegment))
    (part : list ExecCommandSegment) segment :
  ok analysis = true ->
  segments analysis <> [] ->
  chains analysis = Some parts ->
  In part parts ->
  In segment part ->
  resolvesTo hostPlatform params segment = SatisfiedByNull ->
  evaluateExecAllowlist hostPlatform analysis params
  = {| allowlistSatisfied := false; allowlistMatches := [];
       segmentSatisfiedBy := [] |}.
Proof.
  intros Hok Hsegs Hchains Hpart Hsegment Hnull.
  rewrite (evaluateExecAllowlist_chained _ _ _ parts Hok Hsegs Hchains).
  rewrite evaluateChains_spec.
  assert (Hall : forallb (fun p =>
            Segments.satisfied (evaluateSegments hostPlatform p params)) parts = false).
  { apply not_true_is_false. intros Hall. rewrite forallb_forall in Hall.
    specialize (Hall part Hpart).
    rewrite (evaluateSegments_unsatisfied _ _ _ _ Hsegment Hnull) in Hall.
    discriminate. }
  now rewrite Hall.
Qed.

(** C4.  When [analysis.ok] is false, and when [analysis.segments] is
    empty, [evaluateExecAllowlist] returns [allowlistSatisfied: false] with
    empty [allowlistMatches] and empty [segmentSatisfiedBy]; the result is
    the same whatever the segments, the chains, the allowlist, the safe
    bins and the collaborators are, so no segment takes part in it. *)
Theorem evaluateExecAllowlist_analysis_failure hostPlatform analysis params :
  ok analysis = false \/ segments analysis = [] ->
  evaluateExecAllowlist hostPlatform analysis params
  = {| allowlistSatisfied := false; allowlistMatches := [];
       segmentSatisfiedBy := [] |}.
Proof.
  intros [Hok | Hsegs]; unfold evaluateExecAllowlist.
  - now rewrite Hok.
  - rewrite Hsegs. simpl. now rewrite orb_true_r.
Qed.

(** C10.  For an analysis that is ok, has segments and whose [chains] is
    present but empty, [evaluateExecAllowlist] returns
    [allowlistSatisfied: true] with empty [allowlistMatches] and empty
    [segmentSatisfiedBy]; the result is the same whatever the segments, the
    allowlist, the safe bins and the collaborators are, so no segment is
    checked against the allowlist or the safe-bin gate. *)
Theorem evaluateExecAllowlist_empty_chains hostPlatform analysis params :
  ok analysis = true ->
  segments analysis <> [] ->
  chains analysis = Some [] ->
  evaluateExecAllowlist hostPlatform analysis params
  = {| allowlistSatisfied := true; allowlistMatches := [];
       segmentSatisfiedBy := [] |}.
Proof.
  intros Hok Hsegs Hchains.
  now rewrite (evaluateExecAllowlist_chained _ _ _ [] Hok Hsegs Hchains).
Qed.

(** C3, as the code has it.  When the analysis is not ok or has no
    segments, the result is denied and reports no match.  Otherwise, with
    chains, the result is either satisfied, and then every chain part is
    satisfied and [allowlistMatches] is the matches of all the parts in
    order, or denied with no match reported; without chains,
    [allowlistSatisfied] is that of the single pipeline and
    [allowlistMatches] is the matches of its segments up to and including
    the first one that resolves to [null], whether the pipeline is
    satisfied or not. *)
Theorem evaluateExecAllowlist_matches hostPlatform analysis params :
  (ok analysis = false \/ segments analysis = [] ->
   allowlistSatisfied (evaluateExecAllowlist hostPlatform analysis params) = false
   /\ allowlistMatches (evaluateExecAllowlist hostPlatform analysis params) = [])
  /\ (ok analysis = true ->
      segments analysis <> [] ->
      match chains analysis with
      | Some parts =>
          (allowlistSatisfied (evaluateExecAllowlist hostPlatform analysis params) = true
           /\ Forall (fun part =>
                Segments.satisfied (evaluateSegments hostPlatform part params) = true)
                parts
           /\ allowlistMatches (evaluateExecAllowlist hostPlatform analysis params)
              = concat (List.map (fun part =>
                  Segments.matches (evaluateSegments hostPlatform part params)) parts))
          \/ (allowlistSatisfied (evaluateExecAllowlist hostPlatform analysis params)
              = false
              /\ Exists (fun part =>
                   Segments.satisfied (evaluateSegments hostPlatform part params)
                   = false) parts
              /\ allowlistMatches (evaluateExecAllowlist hostPlatform analysis params)
                 = [])
      | None =>
          allowlistSatisfied (evaluateExecAllowlist hostPlatform analysis params)
          = forallb (fun s => isSatisfied (resolvesTo hostPlatform params s))
              (segments analysis)
          /\ allowlistMatches (evaluateExecAllowlist hostPlatform analysis params)
             = omap (matchOf hostPlatform params)
                 (evaluatedSegments hostPlatform params (segments analysis))
      end).
Proof.
  split.
  { intros [Hok | Hsegs]; unfold evaluateExecAllowlist.
    - rewrite Hok. now split.
    - rewrite Hsegs. simpl. rewrite orb_true_r. now split. }
  intros Hok Hsegs. destruct (chains analysis) as [parts|] eqn:Hchains.
  - rewrite (evaluateExecAllowlist_chained _ _ _ parts Hok Hsegs Hchains).
    rewrite evaluateChains_spec.
    destruct (forallb _ parts) eqn:Hall.
    + left. rewrite forallb_forall in Hall. repeat split.
      apply List.Forall_forall. exact Hall.
    + right. repeat split. apply List.Exists_exists.
      apply not_true_iff_false in Hall.
      destruct (List.Forall_Exists_dec
                  (fun part => Segments.satisfied
                     (evaluateSegments hostPlatform part params) = true)
                  (fun part => bool_dec _ true) parts) as [Hforall | Hexists].
      * exfalso. apply Hall. apply forallb_forall.
        now apply List.Forall_forall.
      * apply List.Exists_exists in Hexists as (part & Hin & Hpart).
        exists part. split; [exact Hin | now apply not_true_is_false].
  - rewrite (evaluateExecAllowlist_unchained _ _ _ Hok Hsegs Hchains). simpl.
    now rewrite evaluateSegments_satisfied, evaluateSegments_matches.
Qed.

(** C2, as the code has it.  When the platform of the host process,
    [process.platform], is Windows, [isSafeBinUsage] returns false, whatever
    the safe bins, the resolution, its path and the argv are.  The function
    has no platform parameter. *)
Theorem isSafeBinUsage_windows_host hostPlatform (argv : list string)
    (resolution : option CommandResolution) (safeBins : gset string)
    (cwd : option string) (trustedSafeBinDirs : option (gset string)) :
  isWindowsPlatform (JsValue hostPlatform) = true ->
  isSafeBinUsage hostPlatform argv resolution safeBins cwd trustedSafeBinDirs = false.
Proof. intros Hwindows. unfold isSafeBinUsage. now rewrite Hwindows. Qed.

(** *** The host platform is all that lies outside the declared inputs *)

Lemma isSafeBinUsage_host (host1 host2 : string) (argv : list string)
    (resolution : option CommandResolution) (safeBins : gset string)
    (cwd : option string) (trustedSafeBinDirs : option (gset string)) :
  sameHostView host1 host2 ->
  isSafeBinUsage host1 argv resolution safeBins cwd trustedSafeBinDirs
  = isSafeBinUsage host2 argv resolution safeBins cwd trustedSafeBinDirs.
Proof. intros [Hwindows Hwin32]. unfold isSafeBinUsage. now rewrite Hwindows, Hwin32. Qed.

Lemma evaluateSegment_host (host1 host2 : string) params segment :
  sameHostView host1 host2 ->
  evaluateSegment host1 params segment = evaluateSegment host2 params segment.
Proof.
  intros Hsame. unfold evaluateSegment.
  now rewrite (isSafeBinUsage_host host1 host2 _ _ _ _ _ Hsame).
Qed.

Lemma everySegment_host (host1 host2 : string) params
    (segments : list ExecCommandSegment) :
  sameHostView host1 host2 ->
  forall matches by_,
    everySegment host1 params segments matches by_
    = everySegment host2 params segments matches by_.
Proof.
  intros Hsame. induction segments as [|segment rest IH]; intros matches by_.
  - reflexivity.
  - cbn [everySegment]. rewrite (evaluateSegment_host host1 host2 _ _ Hsame).
    destruct (evaluateSegment host2 params segment) as [m b].
    destruct (isSatisfied b); [apply IH | reflexivity].
Qed.

Lemma evaluateChains_host (host1 host2 : string) params
    (chains : list (list ExecCommandSegment)) :
  sameHostView host1 host2 ->
  forall matches by_,
    evaluateChains host1 params chains matches by_
    = evaluateChains host2 params chains matches by_.
Proof.
  intros Hsame. induction chains as [|part rest IH]; intros matches by_.
  - reflexivity.
  - cbn [evaluateChains]. unfold evaluateSegments.
    rewrite (everySegment_host host1 host2 _ _ Hsame).
    destruct (negb _); [reflexivity | apply IH].
Qed.

Lemma evaluateExecAllowlist_host (host1 host2 : string) analysis params :
  sameHostView host1 host2 ->
  evaluateExecAllowlist host1 analysis params
  = evaluateExecAllowlist host2 analysis params.
Proof.
  intros Hsame. unfold evaluateExecAllowlist, evaluateSegments.
  destruct (negb (ok analysis) || _); [reflexivity|].
  destruct (chains analysis) as [parts|].
  - now apply evaluateChains_host.
  - now rewrite (everySegment_host host1 host2 _ _ Hsame).
Qed.

Lemma evaluateChainParts_host (host1 host2 : string) (env : option ProcessEnv)
    (platform : JsOpt string) params (chainParts : list string) :
  sameHostView host1 host2 ->
  forall accMatches accSegments accSatisfiedBy,
    evaluateChainParts host1 env platform params chainParts
      accMatches accSegments accSatisfiedBy
    = evaluateChainParts host2 env platform params chainParts
        accMatches accSegments accSatisfiedBy.
Proof.
  intros Hsame.
  induction chainParts as [|part rest IH];
    intros accMatches accSegments accSatisfiedBy; [reflexivity|].
  cbn [evaluateChainParts].
  rewrite (evaluateExecAllowlist_host host1 host2 _ _ Hsame).
  destruct (negb (ok _)); [reflexivity|].
  destruct (negb (allowlistSatisfied _)); [reflexivity | apply IH].
Qed.

(** C8, as the code has it.  The result of [evaluateShellAllowlist] is a
    function of its declared parameters, of the collaborators and of the
    platform of the host process: with the same collaborators and the same
    declared parameters, two hosts whose [process.platform] agree on
    [isWindowsPlatform] and on being ["win32"] get the same result. *)
Theorem evaluateShellAllowlist_deterministic (host1 host2 : string)
    (command : string) (env : option ProcessEnv) (platform : JsOpt string) params :
  sameHostView host1 host2 ->
  evaluateShellAllowlist host1 command env platform params
  = evaluateShellAllowlist host2 command env platform params.
Proof.
  intros Hsame. unfold evaluateShellAllowlist.
  destruct (if isWindowsPlatform platform then None else splitCommandChain command)
    as [chainParts|].
  - now apply evaluateChainParts_host.
  - now rewrite (evaluateExecAllowlist_host host1 host2 _ _ Hsame).
Qed.

End EvaluatorClaims.

(** ** The evaluator on concrete commands *)

(** C1 on [ls ; rm -rf x] with [/usr/bin/ls] allowlisted: the first part is
    satisfied by the allowlist, the second resolves to [null], and nothing
    of the first part is reported. *)
Lemma evaluateExecAllowlist_unsatisfied_chain_part_witness :
  ok Fixture.chained = true
  /\ segments Fixture.chained <> []
  /\ chains Fixture.chained = Some [[Fixture.lsSegment]; [Fixture.rmSegment]]
  /\ In [Fixture.rmSegment] [[Fixture.lsSegment]; [Fixture.rmSegment]]
  /\ In Fixture.rmSegment [Fixture.rmSegment]
  /\ resolvesTo (E := Fixture.externals) "linux" Fixture.withAllowlistedLs
       Fixture.rmSegment = SatisfiedByNull
  /\ evaluateExecAllowlist (E := Fixture.externals) "linux" Fixture.chained
       Fixture.withAllowlistedLs
     = {| allowlistSatisfied := false; allowlistMatches := [];
          segmentSatisfiedBy := [] |}.
Proof.
  assert (Hok : ok Fixture.chained = true) by reflexivity.
  assert (Hsegs : segments Fixture.chained <> []) by discriminate.
  assert (Hchains : chains Fixture.chained
                    = Some [[Fixture.lsSegment]; [Fixture.rmSegment]]) by reflexivity.
  assert (Hpart : In [Fixture.rmSegment] [[Fixture.lsSegment]; [Fixture.rmSegment]])
    by (right; left; reflexivity).
  assert (Hsegment : In Fixture.rmSegment [Fixture.rmSegment]) by (left; reflexivity).
  assert (Hnull : resolvesTo (E := Fixture.externals) "linux"
                    Fixture.withAllowlistedLs Fixture.rmSegment = SatisfiedByNull)
    by (vm_compute; reflexivity).
  repeat (split; [assumption|]).
  exact (evaluateExecAllowlist_unsatisfied_chain_part (E := Fixture.externals)
           "linux" Fixture.chained Fixture.withAllowlistedLs _ _ _
           Hok Hsegs Hchains Hpart Hsegment Hnull).
Defined.

(** C4 on an analysis that is not ok. *)
Lemma evaluateExecAllowlist_analysis_failure_witness :
  (ok Fixture.failed = false \/ segments Fixture.failed = [])
  /\ evaluateExecAllowlist (E := Fixture.externals) "linux" Fixture.failed
       Fixture.withAllowlistedLs
     = {| allowlistSatisfied := false; allowlistMatches := [];
          segmentSatisfiedBy := [] |}.
Proof.
  assert (Hfailed : ok Fixture.failed = false \/ segments Fixture.failed = [])
    by (left; reflexivity).
  split; [exact Hfailed|].
  exact (evaluateExecAllowlist_analysis_failure (E := Fixture.externals)
           "linux" Fixture.failed Fixture.withAllowlistedLs Hfailed).
Defined.

(** C10 on [rm -rf x] reported with an empty [chains]: nothing allows
    [rm], and the result is satisfied. *)
Lemma evaluateExecAllowlist_empty_chains_witness :
  ok Fixture.emptyChains = true
  /\ segments Fixture.emptyChains <> []
  /\ chains Fixture.emptyChains = Some []
  /\ resolvesTo (E := Fixture.externals) "linux" Fixture.safeBinsOnly
       Fixture.rmSegment = SatisfiedByNull
  /\ evaluateExecAllowlist (E := Fixture.externals) "linux" Fixture.emptyChains
       Fixture.safeBinsOnly
     = {| allowlistSatisfied := true; allowlistMatches := [];
          segmentSatisfiedBy := [] |}.
Proof.
  assert (Hok : ok Fixture.emptyChains = true) by reflexivity.
  assert (Hsegs : segments Fixture.emptyChains <> []) by discriminate.
  assert (Hchains : chains Fixture.emptyChains = Some []) by reflexivity.
  repeat (split; [assumption|]).
  split; [vm_compute; reflexivity|].
  exact (evaluateExecAllowlist_empty_chains (E := Fixture.externals)
           "linux" Fixture.emptyChains Fixture.safeBinsOnly Hok Hsegs Hchains).
Defined.

(** C3 refuted as stated: the pipeline [ls | rm -rf x], analysed without
    chains and with [/usr/bin/ls] allowlisted, is denied, and the match of
    its first, satisfied segment is reported. *)
Lemma evaluateExecAllowlist_denied_pipeline_reports_match :
  chains (Fixture.analyze "ls | rm -rf x") = None
  /\ resolvesTo (E := Fixture.externals) "linux" Fixture.withAllowlistedLs
       (Fixture.segmentOf "ls ") = SatisfiedByAllowlist
  /\ evaluateExecAllowlist (E := Fixture.externals) "linux"
       (Fixture.analyze "ls | rm -rf x") Fixture.withAllowlistedLs
     = {| allowlistSatisfied := false; allowlistMatches := ["/usr/bin/ls"];
          segmentSatisfiedBy := [SatisfiedByAllowlist; SatisfiedByNull] |}.
Proof. repeat split; vm_compute; reflexivity. Qed.

(** C3, as the code has it, on the same pipeline. *)
Lemma evaluateExecAllowlist_matches_witness :
  ok (Fixture.analyze "ls | rm -rf x") = true
  /\ segments (Fixture.analyze "ls | rm -rf x") <> []
  /\ allowlistSatisfied
       (evaluateExecAllowlist (E := Fixture.externals) "linux"
          (Fixture.analyze "ls | rm -rf x") Fixture.withAllowlistedLs)
     = forallb (fun s => isSatisfied
                  (resolvesTo (E := Fixture.externals) "linux"
                     Fixture.withAllowlistedLs s))
         (segments (Fixture.analyze "ls | rm -rf x"))
  /\ allowlistMatches
       (evaluateExecAllowlist (E := Fixture.externals) "linux"
          (Fixture.analyze "ls | rm -rf x") Fixture.withAllowlistedLs)
     = omap (matchOf (E := Fixture.externals) "linux" Fixture.withAllowlistedLs)
         (evaluatedSegments (E := Fixture.externals) "linux"
            Fixture.withAllowlistedLs (segments (Fixture.analyze "ls | rm -rf x"))).
Proof.
  assert (Hok : ok (Fixture.analyze "ls | rm -rf x") = true)
    by (vm_compute; reflexivity).
  assert (Hsegs : segments (Fixture.analyze "ls | rm -rf x") <> [])
    by (vm_compute; discriminate).
  repeat (split; [assumption|]).
  exact (proj2 (evaluateExecAllowlist_matches (E := Fixture.externals) "linux"
                  (Fixture.analyze "ls | rm -rf x") Fixture.withAllowlistedLs)
           Hok Hsegs).
Defined.

(** C2 refuted as stated: the caller of [evaluateShellAllowlist] passes the
    Windows platform [win32] on a host that is not Windows; the safe-bin
    gate is consulted with the host's platform, returns true for
    [head -n 5], and the command is satisfied by a safe bin. *)
Lemma isSafeBinUsage_ignores_caller_platform :
  isWindowsPlatform (Externals := Fixture.externals) (JsValue "win32") = true
  /\ isSafeBinUsage (E := Fixture.externals) "linux" ["head"; "-n"; "5"]
       (Some (Fixture.resolve "head")) (safeBins Fixture.safeBinsOnly) None None
     = true
  /\ evaluateShellAllowlist (E := Fixture.externals) "linux" "head -n 5" None
       (JsValue "win32") Fixture.safeBinsOnly
     = {| Shell.analysisOk := true;
          Shell.allowlistSatisfied := true;
          Shell.allowlistMatches := [];
          Shell.segments := [Fixture.headSegment];
          Shell.segmentSatisfiedBy := [SatisfiedBySafeBins] |}.
Proof. repeat split; vm_compute; reflexivity. Qed.

(** C2, as the code has it, on a Windows host. *)
Lemma isSafeBinUsage_windows_host_witness :
  isWindowsPlatform (Externals := Fixture.externals) (JsValue "win32") = true
  /\ isSafeBinUsage (E := Fixture.externals) "win32" ["head"; "-n"; "5"]
       (Some (Fixture.resolve "head")) (safeBins Fixture.safeBinsOnly) None None
     = false.
Proof.
  assert (Hwindows : isWindowsPlatform (Externals := Fixture.externals)
                       (JsValue "win32") = true) by reflexivity.
  split; [exact Hwindows|].
  exact (isSafeBinUsage_windows_host (E := Fixture.externals) "win32"
           ["head"; "-n"; "5"] (Some (Fixture.resolve "head"))
           (safeBins Fixture.safeBinsOnly) None None Hwindows).
Defined.

(** C8 refuted as stated: the same command, allowlist, safe bins, cwd,
    platform and other parameters, with the same collaborators, are
    satisfied on a Linux host and denied on a Windows host. *)
Lemma evaluateShellAllowlist_depends_on_host :
  Shell.allowlistSatisfied
    (evaluateShellAllowlist (E := Fixture.externals) "linux" "head -n 5" None
       JsUndefined Fixture.safeBinsOnly) = true
  /\ Shell.allowlistSatisfied
       (evaluateShellAllowlist (E := Fixture.externals) "win32" "head -n 5" None
          JsUndefined Fixture.safeBinsOnly) = false
  /\ evaluateShellAllowlist (E := Fixture.externals) "linux" "head -n 5" None
       JsUndefined Fixture.safeBinsOnly
     <> evaluateShellAllowlist (E := Fixture.externals) "win32" "head -n 5" None
          JsUndefined Fixture.safeBinsOnly.
Proof.
  split; [vm_compute; reflexivity|]. split; [vm_compute; reflexivity|].
  intros Heq. apply (f_equal Shell.allowlistSatisfied) in Heq.
  vm_compute in Heq. discriminate.
Qed.

(** C8, as the code has it, on two hosts that are not Windows. *)
Lemma evaluateShellAllowlist_deterministic_witness :
  sameHostView (E := Fixture.externals) "linux" "darwin"
  /\ evaluateShellAllowlist (E := Fixture.externals) "linux"
       "grep -e foo | head -n 5 ; rm -rf x" None JsUndefined Fixture.safeBinsOnly
     = evaluateShellAllowlist (E := Fixture.externals) "darwin"
         "grep -e foo | head -n 5 ; rm -rf x" None JsUndefined Fixture.safeBinsOnly.
Proof.
  assert (Hsame : sameHostView (E := Fixture.externals) "linux" "darwin")
    by (split; reflexivity).
  split; [exact Hsame|].
  exact (evaluateShellAllowlist_deterministic (E := Fixture.externals)
           "linux" "darwin" "grep -e foo | head -n 5 ; rm -rf x" None JsUndefined
           Fixture.safeBinsOnly Hsame).
Defined.

(** ** Scenarios *)

(** [grep -e foo] with [grep] a safe bin resolved to a trusted path. *)
Example scenario_grep_pattern :
  evaluateShellAllowlist (E := Fixture.externals) "linux" "grep -e foo" None
    JsUndefined Fixture.safeBinsOnly
  = {| Shell.analysisOk := true;
       Shell.allowlistSatisfied := true;
       Shell.allowlistMatches := [];
       Shell.segments := [Fixture.segmentOf "grep -e foo"];
       Shell.segmentSatisfiedBy := [SatisfiedBySafeBins] |}.
Proof. vm_compute. reflexivity. Qed.

(** [grep -r secret .] is denied: [-r] is blocked for [grep]. *)
Example scenario_grep_recursive :
  Shell.allowlistSatisfied
    (evaluateShellAllowlist (E := Fixture.externals) "linux" "grep -r secret ." None
       JsUndefined Fixture.safeBinsOnly) = false.
Proof. vm_compute. reflexivity. Qed.

(** A chain whose first part alone is a safe-bin usage is denied when its
    second part is not; what the first part yielded is still returned. *)
Example scenario_chain_second_part_fails :
  evaluateShellAllowlist (E := Fixture.externals) "linux" "head -n 10;rm -rf x" None
    JsUndefined Fixture.safeBinsOnly
  = {| Shell.analysisOk := true;
       Shell.allowlistSatisfied := false;
       Shell.allowlistMatches := [];
       Shell.segments := [Fixture.segmentOf "head -n 10"; Fixture.rmSegment];
       Shell.segmentSatisfiedBy := [SatisfiedBySafeBins; SatisfiedByNull] |}.
Proof. vm_compute. reflexivity. Qed.

(** A blocked name in the place of a value-flag's value, or after [--], is
    an operand and not a flag. *)
Example blocked_name_as_operand :
  validateSafeBinArgv ["-e"; "--recursive"] grepProfile = true
  /\ validateSafeBinArgv ["--"; "--recursive"] grepProfile = true
  /\ validateSafeBinArgv ["--recursive"; "x"] grepProfile = false.
Proof. now vm_compute. Qed.

(** * Further properties *)

(** ** Trimming and lower-casing *)

Lemma isWhiteSpace_lower (c : ascii) :
  isWhiteSpace (toLowerCaseUnit c) = isWhiteSpace c.
Proof. destruct c as [[] [] [] [] [] [] [] []]; reflexivity. Qed.

Lemma toLowerCaseUnit_idem (c : ascii) :
  toLowerCaseUnit (toLowerCaseUnit c) = toLowerCaseUnit c.
Proof. destruct c as [[] [] [] [] [] [] [] []]; reflexivity. Qed.

Lemma whitespace_not_glob (c : ascii) :
  isWhiteSpace c = true -> isGlobUnit c = false.
Proof. destruct c as [[] [] [] [] [] [] [] []]; intros H; (reflexivity || discriminate H). Qed.

Lemma toLowerCase_idem (s : string) : toLowerCase (toLowerCase s) = toLowerCase s.
Proof.
  induction s as [|c s IH]; simpl; [reflexivity|].
  now rewrite toLowerCaseUnit_idem, IH.
Qed.

Lemma trimStart_lower (s : string) :
  trimStart (toLowerCase s) = toLowerCase (trimStart s).
Proof.
  induction s as [|c s IH]; simpl; [reflexivity|].
  rewrite isWhiteSpace_lower. now destruct (isWhiteSpace c).
Qed.

Lemma trimEnd_lower (s : string) :
  trimEnd (toLowerCase s) = toLowerCase (trimEnd s).
Proof.
  induction s as [|c s IH]; simpl; [reflexivity|].
  rewrite IH. destruct (trimEnd s) as [|d t]; simpl; [|reflexivity].
  rewrite isWhiteSpace_lower. now destruct (isWhiteSpace c).
Qed.

Lemma trim_lower (s : string) : trim (toLowerCase s) = toLowerCase (trim s).
Proof. unfold trim. now rewrite trimStart_lower, trimEnd_lower. Qed.

Lemma trimStart_length (s : string) :
  String.length (trimStart s) <= String.length s.
Proof.
  induction s as [|c s IH]; simpl; [lia|].
  destruct (isWhiteSpace c); simpl; lia.
Qed.

Lemma trimStart_idem (s : string) : trimStart (trimStart s) = trimStart s.
Proof.
  induction s as [|c s IH]; simpl; [reflexivity|].
  destruct (isWhiteSpace c) eqn:Hc; [exact IH|]. simpl. now rewrite Hc.
Qed.

Lemma trimEnd_idem (s : string) : trimEnd (trimEnd s) = trimEnd s.
Proof.
  induction s as [|c s IH]; simpl; [reflexivity|].
  destruct (trimEnd s) as [|d t] eqn:Ht.
  - destruct (isWhiteSpace c) eqn:Hc; simpl; [reflexivity | now rewrite Hc].
  - change (trimEnd (String c (String d t))) with
      (match trimEnd (String d t) with
       | EmptyString => if isWhiteSpace c then EmptyString else String c EmptyString
       | u => String c u
       end).
    now rewrite IH.
Qed.

(** Trimming the end leaves a string without leading white space without
    leading white space. *)
Lemma trimStart_trimEnd (s : string) :
  trimStart s = s -> trimStart (trimEnd s) = trimEnd s.
Proof.
  destruct s as [|c s]; [reflexivity|]. simpl.
  destruct (isWhiteSpace c) eqn:Hc.
  - intros Heq. pose proof (trimStart_length s) as Hlen.
    rewrite Heq in Hlen. simpl in Hlen. lia.
  - intros _. destruct (trimEnd s); simpl; now rewrite Hc.
Qed.

Lemma trim_idem (s : string) : trim (trim s) = trim s.
Proof.
  unfold trim.
  rewrite (trimStart_trimEnd (trimStart s) (trimStart_idem s)).
  apply trimEnd_idem.
Qed.

Lemma hasGlobToken_trimStart (s : string) :
  hasGlobToken (trimStart s) = hasGlobToken s.
Proof.
  unfold hasGlobToken. induction s as [|c s IH]; simpl; [reflexivity|].
  destruct (isWhiteSpace c) eqn:Hc; [|reflexivity].
  now rewrite IH, (whitespace_not_glob c Hc).
Qed.

Lemma hasGlobToken_trimEnd (s : string) :
  hasGlobToken (trimEnd s) = hasGlobToken s.
Proof.
  unfold hasGlobToken. induction s as [|c s IH]; simpl; [reflexivity|].
  destruct (trimEnd s) as [|d t]; rewrite <- IH.
  - destruct (isWhiteSpace c) eqn:Hc; simpl;
      [now rewrite (whitespace_not_glob c Hc) | reflexivity].
  - reflexivity.
Qed.

Lemma hasGlobToken_trim (s : string) : hasGlobToken (trim s) = hasGlobToken s.
Proof. unfold trim. now rewrite hasGlobToken_trimEnd, hasGlobToken_trimStart. Qed.

Lemma isPathLikeToken_trim (s : string) : isPathLikeToken (trim s) = isPathLikeToken s.
Proof. now rewrite !isPathLikeToken_prefix, trim_idem. Qed.

(** X1.  White space around a token never changes its classification:
    [isPathLikeToken], [hasGlobToken] and [isSafeLiteralToken] give the same
    answer on a token and on the token trimmed. *)
Theorem classifier_ignores_surrounding_whitespace (value : string) :
  isPathLikeToken (trim value) = isPathLikeToken value
  /\ hasGlobToken (trim value) = hasGlobToken value
  /\ isSafeLiteralToken (trim value) = isSafeLiteralToken value.
Proof.
  split; [apply isPathLikeToken_trim|]. split; [apply hasGlobToken_trim|].
  unfold isSafeLiteralToken.
  rewrite isPathLikeToken_trim, hasGlobToken_trim.
  destruct (isEmpty (trim value) || (trim value =? "-")) eqn:Htrim.
  - assert (Hglob : hasGlobToken value = false).
    { rewrite <- hasGlobToken_trim. apply orb_true_iff in Htrim as [He | Hd].
      - apply isEmpty_true in He. now rewrite He.
      - apply String.eqb_eq in Hd. now rewrite Hd. }
    assert (Hpath : isPathLikeToken value = false).
    { rewrite isPathLikeToken_prefix. apply orb_true_iff in Htrim as [He | Hd].
      - apply isEmpty_true in He. now rewrite He.
      - apply String.eqb_eq in Hd. now rewrite Hd. }
    rewrite Hglob, Hpath. now destruct (isEmpty value || (value =? "-")).
  - destruct (isEmpty value || (value =? "-")) eqn:Hvalue; [|reflexivity].
    exfalso. apply orb_true_iff in Hvalue as [He | Hd].
    + apply isEmpty_true in He. rewrite He in Htrim. discriminate.
    + apply String.eqb_eq in Hd. rewrite Hd in Htrim. discriminate.
Qed.

(** ** The normalised safe-bin set *)

(** X2.  Every member of the set [normalizeSafeBins] builds from an array is
    in normal form: it is not empty, it has no white space around it and
    it is lower-case. *)
Theorem normalizeSafeBins_normal_form (entries : list string) (x : string) :
  x ∈ normalizeSafeBins (JsValue entries) ->
  x <> "" /\ trim x = x /\ toLowerCase x = x.
Proof.
  intros Hin. apply elem_of_normalizeSafeBins in Hin as [Hne (e & _ & ->)].
  split; [exact Hne|]. split.
  - now rewrite trim_lower, trim_idem.
  - apply toLowerCase_idem.
Qed.

Lemma normalizeSafeBins_normal_form_witness :
  "grep" ∈ normalizeSafeBins (JsValue ["  GREP "; ""; "Jq"])
  /\ "grep" <> "" /\ trim "grep" = "grep" /\ toLowerCase "grep" = "grep".
Proof.
  assert (Hin : "grep" ∈ normalizeSafeBins (JsValue ["  GREP "; ""; "Jq"]))
    by (apply has_true; vm_compute; reflexivity).
  split; [exact Hin|].
  exact (normalizeSafeBins_normal_form ["  GREP "; ""; "Jq"] "grep" Hin).
Defined.

Lemma normalizeSafeBins_elements (entries : list string) :
  normalizeSafeBins (JsValue (elements (normalizeSafeBins (JsValue entries))))
  = normalizeSafeBins (JsValue entries).
Proof.
  apply set_eq. intros x. rewrite elem_of_normalizeSafeBins. split.
  - intros [Hne (e & He & ->)].
    apply list_elem_of_In, elem_of_elements in He.
    destruct (normalizeSafeBins_normal_form _ _ He) as (_ & Htrim & Hlower).
    now rewrite Htrim, Hlower.
  - intros Hx. destruct (normalizeSafeBins_normal_form _ _ Hx) as (Hne & Htrim & Hlower).
    split; [exact Hne|]. exists x. split.
    + now apply list_elem_of_In, elem_of_elements.
    + now rewrite Htrim, Hlower.
Qed.

(** X3.  Normalising is idempotent and respects concatenation: the members
    of a normalised set, given back as an array, normalise to the same set;
    a set that [resolveSafeBins] returned, given back as explicit
    configuration, resolves to itself, also when it came from the default
    list; and the set of a concatenation is the union of the sets, so the
    order and the repetition of entries do not matter. *)
Theorem normalizeSafeBins_idempotent :
  (forall entries : list string,
      normalizeSafeBins (JsValue (elements (normalizeSafeBins (JsValue entries))))
      = normalizeSafeBins (JsValue entries))
  /\ (forall (DEFAULT_SAFE_BINS : list string) (entries : JsOpt (list string)),
        resolveSafeBins DEFAULT_SAFE_BINS
          (JsValue (elements (resolveSafeBins DEFAULT_SAFE_BINS entries)))
        = resolveSafeBins DEFAULT_SAFE_BINS entries)
  /\ (forall entries1 entries2 : list string,
        normalizeSafeBins (JsValue (entries1 ++ entries2))
        = normalizeSafeBins (JsValue entries1) ∪ normalizeSafeBins (JsValue entries2)).
Proof.
  split; [exact normalizeSafeBins_elements|]. split.
  - intros D [| |entries]; cbn [resolveSafeBins]; apply normalizeSafeBins_elements.
  - intros entries1 entries2. apply set_eq. intros x.
    rewrite elem_of_union, !elem_of_normalizeSafeBins. split.
    + intros [Hne (e & He & ->)]. apply in_app_or in He as [He | He]; eauto.
    + intros [[Hne (e & He & ->)] | [Hne (e & He & ->)]];
        (split; [exact Hne|]); exists e; (split; [|reflexivity]);
        apply in_or_app; auto.
Qed.

(** ** The argv validator as a whole *)

(** What an iteration that goes on has established. *)
Lemma loopBody_continue (profile : SafeBinProfile) (token : string)
    (rest positional : list string) (skipNext : bool) (positional' : list string) :
  loopBody profile token rest positional = Continue skipNext positional' ->
  (startsWith token "-" = false -> isSafeLiteralToken token = true)
  /\ (skipNext = true -> nextValueAccepted rest = true)
  /\ (positional' = positional
      \/ (positional' = positional ++ [token] /\ countable token)).
Proof.
  unfold loopBody, countable.
  destruct (isEmpty token) eqn:Hempty.
  { intros [= <- <-]. apply isEmpty_true in Hempty. subst token.
    repeat split; [discriminate | now left]. }
  apply isEmpty_false in Hempty.
  destruct (String.eqb_spec token "--") as [->|Hdd].
  { destruct (scanAfterDoubleDash rest positional); discriminate. }
  destruct (String.eqb_spec token "-") as [->|Hd].
  { intros [= <- <-]. repeat split; [discriminate.. | now left]. }
  destruct (startsWith token "-") eqn:Hdash; cbn [negb].
  - destruct (startsWith token "--").
    + destruct (has _ _); [discriminate|].
      destruct (0 <? indexOf token "=")%Z.
      * destruct (isSafeLiteralToken _); cbn [negb]; [|discriminate].
        intros [= <- <-]. repeat split; [discriminate.. | now left].
      * destruct (has _ _); cbn [negb].
        -- destruct (nextValueAccepted rest) eqn:Hnext; cbn [negb]; [|discriminate].
           intros [= <- <-]. repeat split; [discriminate | now left].
        -- intros [= <- <-]. repeat split; [discriminate.. | now left].
    + destruct (scanCluster _ _ _).
      * discriminate.
      * destruct (hasGlobToken token); [discriminate|].
        intros [= <- <-]. repeat split; [discriminate.. | now left].
      * intros [= <- <-]. repeat split; [discriminate.. | now left].
      * destruct (nextValueAccepted rest) eqn:Hnext; cbn [negb]; [|discriminate].
        intros [= <- <-]. repeat split; [discriminate | now left].
  - destruct (isSafeLiteralToken token) eqn:Hsafe; cbn [negb]; [|discriminate].
    intros [= <- <-]. split; [reflexivity|]. split; [discriminate|].
    right. repeat split; assumption.
Qed.

Lemma loopBody_break (profile : SafeBinProfile) (token : string)
    (rest positional positional' : list string) :
  loopBody profile token rest positional = Break positional' ->
  token = "--" /\ scanAfterDoubleDash rest positional = Some positional'.
Proof.
  unfold loopBody.
  destruct (isEmpty token); [discriminate|].
  destruct (String.eqb_spec token "--") as [->|_].
  { destruct (scanAfterDoubleDash rest positional); [|discriminate].
    now intros [= <-]. }
  destruct (token =? "-"); [discriminate|].
  destruct (negb (startsWith token "-")).
  { destruct (negb (isSafeLiteralToken token)); discriminate. }
  destruct (startsWith token "--").
  - repeat (match goal with |- context [if ?b then _ else _] => destruct b end;
            try discriminate).
  - destruct (scanCluster _ _ _); try discriminate;
      repeat (match goal with |- context [if ?b then _ else _] => destruct b end;
              try discriminate).
Qed.

(** How a successful scan proceeds from a non-empty argument list. *)
Lemma scanArgs_step (profile : SafeBinProfile) (token : string)
    (rest positional result : list string) :
  scanArgs profile (token :: rest) positional = Some result ->
  loopBody profile token rest positional = Break result
  \/ (exists positional',
        loopBody profile token rest positional = Continue false positional'
        /\ scanArgs profile rest positional' = Some result)
  \/ (exists positional',
        loopBody profile token rest positional = Continue true positional'
        /\ scanArgs profile (tail rest) positional' = Some result).
Proof.
  simpl. destruct (loopBody profile token rest positional) as [|p|[] p].
  - discriminate.
  - intros [= ->]. now left.
  - intros H. right. right. exists p. split; [reflexivity|]. now destruct rest.
  - intros H. right. left. now exists p.
Qed.

Lemma nextValueAccepted_true (rest : list string) :
  nextValueAccepted rest = true ->
  exists value rest', rest = value :: rest' /\ value <> ""
                      /\ isSafeLiteralToken value = true.
Proof.
  destruct rest as [|value rest']; [discriminate|]. simpl.
  intros H. apply andb_true_iff in H as [Hne Hsafe].
  exists value, rest'. repeat split; [|exact Hsafe].
  apply isEmpty_false. now apply negb_true_iff.
Qed.

Lemma scanAfterDoubleDash_some (rest : list string) :
  forall positional result,
    scanAfterDoubleDash rest positional = Some result ->
    Forall (fun t => isSafeLiteralToken t = true) rest
    /\ exists added, result = positional ++ added
                     /\ added `sublist_of` rest /\ Forall countable added.
Proof.
  induction rest as [|r rest IH]; intros positional result; simpl.
  - intros [= <-]. split; [constructor|]. exists []. rewrite app_nil_r.
    repeat split; constructor.
  - destruct (isEmpty r || (r =? "-")) eqn:Hskip.
    + intros H. destruct (IH _ _ H) as (Hall & added & -> & Hsub & Hgood).
      split.
      * constructor; [|exact Hall]. unfold isSafeLiteralToken. now rewrite Hskip.
      * exists added. repeat split; [now apply sublist_cons | exact Hgood].
    + destruct (isSafeLiteralToken r) eqn:Hsafe; cbn [negb]; [|discriminate].
      intros H. destruct (IH _ _ H) as (Hall & added & -> & Hsub & Hgood).
      split; [now constructor|].
      exists (r :: added). rewrite <- app_assoc. repeat split.
      * now apply sublist_skip.
      * constructor; [|exact Hgood].
        apply orb_false_iff in Hskip as [He Hd].
        repeat split; [now apply isEmpty_false | now apply String.eqb_neq | exact Hsafe].
Qed.

(** A successful scan has tested every token that is not a flag, and its
    positional list extends the one it started from by a subsequence of
    the arguments. *)
Lemma scanArgs_some (profile : SafeBinProfile) (n : nat) :
  forall args positional result,
    length args <= n ->
    scanArgs profile args positional = Some result ->
    Forall (fun t => startsWith t "-" = false -> isSafeLiteralToken t = true) args
    /\ exists added, result = positional ++ added
                     /\ added `sublist_of` args /\ Forall countable added.
Proof.
  induction n as [|n IH]; intros args positional result Hlen Hscan.
  - destruct args; [|simpl in Hlen; lia]. injection Hscan as <-.
    split; [constructor|]. exists []. rewrite app_nil_r. repeat split; constructor.
  - destruct args as [|token rest].
    { injection Hscan as <-. split; [constructor|]. exists [].
      rewrite app_nil_r. repeat split; constructor. }
    simpl in Hlen.
    destruct (scanArgs_step _ _ _ _ _ Hscan)
      as [Hbreak | [(p & Hbody & Hrest) | (p & Hbody & Hrest)]].
    + apply loopBody_break in Hbreak as [-> Hafter].
      destruct (scanAfterDoubleDash_some _ _ _ Hafter) as (Hall & added & -> & Hsub & Hgood).
      split.
      * constructor; [discriminate|].
        eapply Forall_impl; [exact Hall|]. intros t Ht _. exact Ht.
      * exists added. repeat split; [now apply sublist_cons | exact Hgood].
    + apply loopBody_continue in Hbody as (Htoken & _ & Hpos).
      destruct (IH rest p result ltac:(lia) Hrest) as (Hall & added & -> & Hsub & Hgood).
      split; [now constructor|].
      destruct Hpos as [-> | [-> Hcount]].
      * exists added. repeat split; [now apply sublist_cons | exact Hgood].
      * exists (token :: added). rewrite <- app_assoc. repeat split;
          [now apply sublist_skip | now constructor].
    + apply loopBody_continue in Hbody as (Htoken & Hnext & Hpos).
      destruct (nextValueAccepted_true rest (Hnext eq_refl))
        as (value & rest' & -> & _ & Hvalue).
      simpl in Hrest, Hlen.
      destruct (IH rest' p result ltac:(lia) Hrest) as (Hall & added & -> & Hsub & Hgood).
      split; [constructor; [exact Htoken | constructor; [now intros _ | exact Hall]]|].
      destruct Hpos as [-> | [-> Hcount]].
      * exists added. repeat split; [now do 2 apply sublist_cons | exact Hgood].
      * exists (token :: added). rewrite <- app_assoc. repeat split;
          [now apply sublist_skip, sublist_cons | now constructor].
Qed.

(** X4.  In an argument list that [validateSafeBinArgv] accepts, no token
    outside the flags (no token that does not start with [-]) contains a
    glob character or is path-like, whatever the profile and whether the
    token is counted as positional or consumed as a flag's value. *)
Theorem validateSafeBinArgv_accepts_only_safe_operands
    (profile : SafeBinProfile) (args : list string) :
  validateSafeBinArgv args profile = true ->
  Forall (fun t => startsWith t "-" = false ->
                   hasGlobToken t = false /\ isPathLikeToken t = false) args.
Proof.
  unfold validateSafeBinArgv.
  destruct (scanArgs profile args []) as [positional|] eqn:Hscan; [|discriminate].
  intros _.
  destruct (scanArgs_some profile (length args) args [] positional (le_n _) Hscan)
    as [Hall _].
  eapply Forall_impl; [exact Hall|]. intros t Ht Hplain. specialize (Ht Hplain).
  unfold isSafeLiteralToken in Ht.
  destruct t as [|c t]; [split; reflexivity|]. simpl isEmpty in Ht.
  destruct (String.eqb_spec (String c t) "-") as [Heq|_].
  - rewrite Heq in Hplain. discriminate.
  - simpl in Ht. apply andb_true_iff in Ht as [Hglob Hpath].
    split; now apply negb_true_iff.
Qed.

Lemma validateSafeBinArgv_accepts_only_safe_operands_witness :
  validateSafeBinArgv ["-i"; "-e"; "needle"; "--"; "verbatim"] grepProfile = true
  /\ Forall (fun t => startsWith t "-" = false ->
                      hasGlobToken t = false /\ isPathLikeToken t = false)
       ["-i"; "-e"; "needle"; "--"; "verbatim"].
Proof.
  assert (Hvalid : validateSafeBinArgv ["-i"; "-e"; "needle"; "--"; "verbatim"]
                     grepProfile = true) by (vm_compute; reflexivity).
  split; [exact Hvalid|].
  exact (validateSafeBinArgv_accepts_only_safe_operands grepProfile
           ["-i"; "-e"; "needle"; "--"; "verbatim"] Hvalid).
Defined.

(** X5.  The positional tokens a scan counts are a subsequence of the
    arguments, each of them non-empty, different from [-] and a safe
    literal; so there are at most as many as there are arguments. *)
Theorem scanArgs_positional_subsequence
    (profile : SafeBinProfile) (args positional : list string) :
  scanArgs profile args [] = Some positional ->
  positional `sublist_of` args
  /\ Forall countable positional
  /\ length positional <= length args.
Proof.
  intros Hscan.
  destruct (scanArgs_some profile (length args) args [] positional (le_n _) Hscan)
    as (_ & added & -> & Hsub & Hgood).
  simpl. repeat split; [exact Hsub | exact Hgood | now apply sublist_length].
Qed.

Lemma scanArgs_positional_subsequence_witness :
  scanArgs grepProfile ["-"; "-e"; "x"; "needle"; "--"; "-v"] [] = Some ["needle"; "-v"]
  /\ ["needle"; "-v"] `sublist_of` ["-"; "-e"; "x"; "needle"; "--"; "-v"]
  /\ Forall countable ["needle"; "-v"]
  /\ length ["needle"; "-v"] <= length ["-"; "-e"; "x"; "needle"; "--"; "-v"].
Proof.
  assert (Hscan : scanArgs grepProfile ["-"; "-e"; "x"; "needle"; "--"; "-v"] []
                  = Some ["needle"; "-v"]) by (vm_compute; reflexivity).
  split; [exact Hscan|].
  exact (scanArgs_positional_subsequence grepProfile
           ["-"; "-e"; "x"; "needle"; "--"; "-v"] ["needle"; "-v"] Hscan).
Defined.

(** ** Blocking more flags *)

Lemma scanCluster_more_blocked (vflags bflags bflags' : gset string) (units : string) :
  bflags ⊆ bflags' ->
  scanCluster vflags bflags' units = ClusterRejected
  \/ scanCluster vflags bflags' units = scanCluster vflags bflags units.
Proof.
  intros Hsub. induction units as [|c rest IH]; simpl; [now right|].
  destruct (has bflags' _) eqn:Hb'; [now left|].
  assert (Hb : has bflags (String "-" (String c "")) = false).
  { apply has_false. apply has_false in Hb'. intros Hin. apply Hb'. exact (Hsub _ Hin). }
  rewrite Hb. destruct (has vflags _); simpl; [now right | exact IH].
Qed.

Lemma loopBody_more_blocked (profile profile' : SafeBinProfile) (token : string)
    (rest positional : list string) :
  blocksMore profile profile' ->
  loopBody profile' token rest positional = ReturnFalse
  \/ loopBody profile' token rest positional = loopBody profile token rest positional.
Proof.
  intros (_ & _ & Hvalue & Hblocked).
  unfold valueFlagsOf, blockedFlagsOf in Hvalue, Hblocked.
  unfold loopBody, NO_FLAGS. rewrite Hvalue.
  destruct (isEmpty token); [now right|].
  destruct (token =? "--"); [now right|].
  destruct (token =? "-"); [now right|].
  destruct (negb (startsWith token "-")); [now right|].
  destruct (startsWith token "--").
  - destruct (has (default ∅ (blockedFlags profile')) _) eqn:Hb'; [now left|].
    apply has_false in Hb'.
    assert (Hb : has (default ∅ (blockedFlags profile))
                   (if (0 <? indexOf token "=")%Z
                    then slice token 0 (Some (indexOf token "="))
                    else token) = false).
    { apply has_false. intros Hin. apply Hb'. exact (Hblocked _ Hin). }
    rewrite Hb. now right.
  - destruct (scanCluster_more_blocked (default ∅ (valueFlags profile))
                _ _ (slice token 1 None) Hblocked) as [-> | ->]; [now left | now right].
Qed.

Lemma scanArgs_more_blocked (profile profile' : SafeBinProfile) (n : nat) :
  blocksMore profile profile' ->
  forall args positional result,
    length args <= n ->
    scanArgs profile' args positional = Some result ->
    scanArgs profile args positional = Some result.
Proof.
  intros Hmore. induction n as [|n IH]; intros args positional result Hlen Hscan.
  - destruct args; [exact Hscan | simpl in Hlen; lia].
  - destruct args as [|token rest]; [exact Hscan|]. simpl in Hlen, Hscan |- *.
    destruct (loopBody_more_blocked profile profile' token rest positional Hmore)
      as [Hfalse | Hsame].
    + rewrite Hfalse in Hscan. discriminate.
    + rewrite <- Hsame.
      destruct (loopBody profile' token rest positional) as [|p|[] p];
        [discriminate | exact Hscan | | apply IH; [lia | exact Hscan]].
      destruct rest as [|value rest']; [exact Hscan|].
      apply IH; [simpl in Hlen; lia | exact Hscan].
Qed.

(** X6.  Blocking more flags never accepts more: when two profiles have the
    same positional bounds and the same value-flags and the second blocks
    every flag the first blocks, every argument list the second accepts is
    accepted by the first. *)
Theorem validateSafeBinArgv_antitone_in_blockedFlags
    (profile profile' : SafeBinProfile) (args : list string) :
  blocksMore profile profile' ->
  validateSafeBinArgv args profile' = true ->
  validateSafeBinArgv args profile = true.
Proof.
  intros Hmore. unfold validateSafeBinArgv.
  destruct (scanArgs profile' args []) as [positional|] eqn:Hscan; [|discriminate].
  rewrite (scanArgs_more_blocked profile profile' (length args) Hmore
             args [] positional (le_n _) Hscan).
  destruct Hmore as (Hmin & Hmax & _).
  unfold positionalCountAccepted. now rewrite Hmin, Hmax.
Qed.

(** The [sort] profile blocks more than a [sort] profile without
    [blockedFlags]. *)
Lemma validateSafeBinArgv_antitone_in_blockedFlags_witness :
  blocksMore
    {| minPositional := None; maxPositional := Some 0%Z;
       valueFlags := valueFlags sortProfile; blockedFlags := None |}
    sortProfile
  /\ validateSafeBinArgv ["-k"; "2"; "-r"] sortProfile = true
  /\ validateSafeBinArgv ["-k"; "2"; "-r"]
       {| minPositional := None; maxPositional := Some 0%Z;
          valueFlags := valueFlags sortProfile; blockedFlags := None |} = true.
Proof.
  assert (Hmore : blocksMore
            {| minPositional := None; maxPositional := Some 0%Z;
               valueFlags := valueFlags sortProfile; blockedFlags := None |}
            sortProfile).
  { repeat split. intros x Hx. now apply not_elem_of_empty in Hx. }
  assert (Hvalid : validateSafeBinArgv ["-k"; "2"; "-r"] sortProfile = true)
    by (vm_compute; reflexivity).
  split; [exact Hmore | split; [exact Hvalid|]].
  exact (validateSafeBinArgv_antitone_in_blockedFlags _ sortProfile
           ["-k"; "2"; "-r"] Hmore Hvalid).
Defined.

(** ** Value-flags without a value, clusters with a glob *)

Lemma nextValueAccepted_none (rest : list string) :
  noNextValue rest -> nextValueAccepted rest = false.
Proof. intros [-> | [rest' ->]]; reflexivity. Qed.

Lemma loopBody_awaits_value (profile : SafeBinProfile) (token : string)
    (rest positional : list string) :
  AwaitsValue profile token ->
  noNextValue rest ->
  loopBody profile token rest positional = ReturnFalse.
Proof.
  intros Hawaits Hnone. apply nextValueAccepted_none in Hnone.
  destruct Hawaits as [flag Hlong Hne Hnoeq Hvalue | before c Hshort Hbefore Hvalue];
    apply has_true in Hvalue.
  - rewrite loopBody_long by assumption. unfold longFlagBranch.
    rewrite indexOf_absent by exact Hnoeq.
    change (0 <? -1)%Z with false. cbv zeta iota.
    rewrite Hvalue, Hnone. simpl. now destruct (has (blockedFlagsOf profile) _).
  - destruct (cluster_token _ Hshort (app_cons_nonempty before c ""))
      as (Hdash & Hne & Hslice).
    rewrite loopBody_cluster by assumption. unfold clusterBranch.
    rewrite Hslice.
    destruct (scanCluster_passes (valueFlagsOf profile) (blockedFlagsOf profile)
                before (String c "") Hbefore) as [-> | ->]; [reflexivity|].
    simpl scanCluster. fold (shortFlag c). rewrite Hvalue, Hnone.
    simpl. now destruct (has (blockedFlagsOf profile) _).
Qed.

(** X7.  A value-flag that has to take its value from the next token is
    rejected when there is no next token, and when the next token is the
    empty string: whenever the scan arrives at a long value-flag without
    inline value, or at a short-flag cluster that ends in its first
    value-flag character, and nothing or an empty string follows,
    [validateSafeBinArgv] returns false. *)
Theorem validateSafeBinArgv_rejects_missing_value
    (profile : SafeBinProfile) (n : nat) (args : list string)
    (token : string) (rest positional : list string) :
  scanState profile n args [] = Some (token :: rest, positional) ->
  AwaitsValue profile token ->
  noNextValue rest ->
  validateSafeBinArgv args profile = false.
Proof.
  intros Hstate Hawaits Hnone.
  eapply scan_rejected; [exact Hstate|].
  now apply loopBody_awaits_value.
Qed.

(** With the [head] profile: after [-c 3], the cluster [-qn] ends the
    argument list and [-n] has nothing to consume. *)
Lemma validateSafeBinArgv_rejects_missing_value_witness :
  scanState headProfile 1 ["-c"; "3"; "-qn"] [] = Some ("-qn" :: [], [])
  /\ AwaitsValue headProfile "-qn"
  /\ noNextValue []
  /\ validateSafeBinArgv ["-c"; "3"; "-qn"] headProfile = false.
Proof.
  assert (Hstate : scanState headProfile 1 ["-c"; "3"; "-qn"] []
                   = Some ("-qn" :: [], [])) by (vm_compute; reflexivity).
  assert (Hawaits : AwaitsValue headProfile "-qn").
  { apply (AwaitsShort headProfile "q" "n").
    - vm_compute; reflexivity.
    - intros x [<- | []]. apply has_false. vm_compute; reflexivity.
    - apply has_true. vm_compute; reflexivity. }
  assert (Hnone : noNextValue []) by (left; reflexivity).
  repeat (split; [assumption|]).
  exact (validateSafeBinArgv_rejects_missing_value headProfile 1
           ["-c"; "3"; "-qn"] "-qn" [] [] Hstate Hawaits Hnone).
Defined.

Lemma append_empty (s : string) : s +:+ "" = s.
Proof. induction s as [|c s IH]; simpl; [reflexivity | now rewrite IH]. Qed.

(** X8.  A short-flag cluster none of whose characters is a value-flag is
    rejected when it contains a glob character: whenever the scan arrives
    at such a token, [validateSafeBinArgv] returns false. *)
Theorem validateSafeBinArgv_rejects_glob_cluster
    (profile : SafeBinProfile) (n : nat) (args : list string)
    (body : string) (rest positional : list string) :
  scanState profile n args [] = Some (("-" +:+ body) :: rest, positional) ->
  body <> "" ->
  startsWith ("-" +:+ body) "--" = false ->
  (forall x, In x (units body) -> shortFlag x ∉ valueFlagsOf profile) ->
  hasGlobToken ("-" +:+ body) = true ->
  validateSafeBinArgv args profile = false.
Proof.
  intros Hstate Hbody Hshort Hnone Hglob.
  eapply scan_rejected; [exact Hstate|].
  destruct (cluster_token _ Hshort Hbody) as (Hdash & Hne & Hslice).
  rewrite loopBody_cluster by assumption. unfold clusterBranch.
  rewrite Hslice, Hglob.
  destruct (scanCluster_passes (valueFlagsOf profile) (blockedFlagsOf profile)
              body "" Hnone) as [Hrej | Hpass];
    rewrite append_empty in *; [now rewrite Hrej | now rewrite Hpass].
Qed.

(** With the generic profile, after a plain word. *)
Lemma validateSafeBinArgv_rejects_glob_cluster_witness :
  scanState SAFE_BIN_GENERIC_PROFILE 1 ["word"; "-a*"] [] = Some (("-" +:+ "a*") :: [], ["word"])
  /\ "a*" <> ""
  /\ startsWith ("-" +:+ "a*") "--" = false
  /\ (forall x, In x (units "a*") -> shortFlag x ∉ valueFlagsOf SAFE_BIN_GENERIC_PROFILE)
  /\ hasGlobToken ("-" +:+ "a*") = true
  /\ validateSafeBinArgv ["word"; "-a*"] SAFE_BIN_GENERIC_PROFILE = false.
Proof.
  assert (Hstate : scanState SAFE_BIN_GENERIC_PROFILE 1 ["word"; "-a*"] []
                   = Some (("-" +:+ "a*") :: [], ["word"])) by (vm_compute; reflexivity).
  assert (Hbody : "a*" <> "") by discriminate.
  assert (Hshort : startsWith ("-" +:+ "a*") "--" = false) by (vm_compute; reflexivity).
  assert (Hnone : forall x, In x (units "a*") ->
                    shortFlag x ∉ valueFlagsOf SAFE_BIN_GENERIC_PROFILE).
  { intros x _. apply has_false. reflexivity. }
  assert (Hglob : hasGlobToken ("-" +:+ "a*") = true) by (vm_compute; reflexivity).
  repeat (split; [assumption|]).
  exact (validateSafeBinArgv_rejects_glob_cluster SAFE_BIN_GENERIC_PROFILE 1
           ["word"; "-a*"] "a*" [] ["word"] Hstate Hbody Hshort Hnone Hglob).
Defined.

(** The glob test of a cluster is skipped once one of its characters has
    consumed a value. *)
Example glob_in_cluster_with_value_flag :
  validateSafeBinArgv ["-*n5"] headProfile = true.
Proof. now vm_compute. Qed.

(** ** Segments, one by one and in a pipeline *)

Section EvaluatorFurther.
Context `{E : Externals}.
Implicit Types (hostPlatform : string) (params : AllowlistParams ExecAllowlistEntry).
Implicit Types (segment : ExecCommandSegment) (analysis : ExecCommandAnalysis).

#[local] Arguments evaluateSegment : simpl never.
#[local] Arguments resolvesTo : simpl never.
#[local] Arguments matchOf : simpl never.

Lemma isAllowlist_resolvesTo hostPlatform params segment :
  isAllowlist (resolvesTo hostPlatform params segment)
  = bool_decide (is_Some (matchOf hostPlatform params segment)).
Proof.
  unfold resolvesTo, matchOf, evaluateSegment. cbn [fst snd].
  destruct (matchAllowlist _ _) as [entry|].
  - reflexivity.
  - destruct (isSafeBinUsage _ _ _ _ _ _); [reflexivity|].
    now match goal with |- context [if ?b then _ else _] => destruct b end.
Qed.

Lemma resolvesTo_safeBins hostPlatform params segment :
  resolvesTo hostPlatform params segment = SatisfiedBySafeBins ->
  matchOf hostPlatform params segment = None
  /\ isSafeBinUsage hostPlatform (argv segment) (resolution segment)
       (safeBins params) (cwd params) (trustedSafeBinDirs params) = true.
Proof.
  unfold resolvesTo, matchOf, evaluateSegment. cbn [fst snd].
  destruct (matchAllowlist _ _) as [entry|]; [discriminate|].
  destruct (isSafeBinUsage _ _ _ _ _ _); [now split|].
  now match goal with |- context [if ?b then _ else _] => destruct b end.
Qed.

Lemma resolvesTo_skills hostPlatform params segment :
  resolvesTo hostPlatform params segment = SatisfiedBySkills ->
  matchOf hostPlatform params segment = None
  /\ isSafeBinUsage hostPlatform (argv segment) (resolution segment)
       (safeBins params) (cwd params) (trustedSafeBinDirs params) = false
  /\ autoAllowSkills params = Some true
  /\ exists bins r,
       skillBins params = Some bins /\ resolution segment = Some r
       /\ executableName r <> "" /\ executableName r ∈ bins.
Proof.
  unfold resolvesTo, matchOf, evaluateSegment. cbn [fst snd].
  destruct (matchAllowlist _ _) as [entry|]; [discriminate|].
  destruct (isSafeBinUsage _ _ _ _ _ _); [discriminate|].
  destruct (resolution segment) as [r|]; [|discriminate].
  destruct (allowSkills params && negb (isEmpty (executableName r))) eqn:Hallow;
    [|discriminate].
  apply andb_true_iff in Hallow as [Hskills Hname].
  apply negb_true_iff, isEmpty_false in Hname.
  unfold allowSkills in Hskills.
  destruct (autoAllowSkills params) as [[]|]; try discriminate.
  destruct (skillBins params) as [bins|]; [|discriminate]. cbn.
  destruct (has bins (executableName r)) eqn:Hin; [|discriminate].
  intros _. repeat split. exists bins, r. repeat split; [exact Hname|].
  now apply has_true.
Qed.

Lemma evaluatedSegments_length hostPlatform params (segments : list ExecCommandSegment) :
  length (evaluatedSegments hostPlatform params segments) <= length segments.
Proof.
  induction segments as [|segment rest IH]; simpl; [lia|].
  destruct (isSatisfied _); simpl; lia.
Qed.

Lemma evaluatedSegments_all hostPlatform params (segments : list ExecCommandSegment) :
  forallb (fun s => isSatisfied (resolvesTo hostPlatform params s)) segments = true ->
  evaluatedSegments hostPlatform params segments = segments.
Proof.
  induction segments as [|segment rest IH]; simpl; [reflexivity|].
  intros H. apply andb_true_iff in H as [Hs Hrest]. rewrite Hs. now rewrite IH.
Qed.

Lemma evaluatedSegments_stop hostPlatform params (segments : list ExecCommandSegment) :
  forallb (fun s => isSatisfied (resolvesTo hostPlatform params s)) segments = false ->
  exists earlier last,
    evaluatedSegments hostPlatform params segments = earlier ++ [last]
    /\ Forall (fun s => isSatisfied (resolvesTo hostPlatform params s) = true) earlier
    /\ resolvesTo hostPlatform params last = SatisfiedByNull.
Proof.
  induction segments as [|segment rest IH]; simpl; [discriminate|].
  destruct (isSatisfied (resolvesTo hostPlatform params segment)) eqn:Hs; simpl.
  - intros H. destruct (IH H) as (earlier & last & -> & Hall & Hlast).
    exists (segment :: earlier), last. repeat split; [now constructor | exact Hlast].
  - intros _. exists [], segment. repeat split; [constructor|].
    now destruct (resolvesTo hostPlatform params segment).
Qed.

Lemma matches_count hostPlatform params (l : list ExecCommandSegment) :
  length (omap (matchOf hostPlatform params) l)
  = length (List.filter isAllowlist (List.map (resolvesTo hostPlatform params) l)).
Proof.
  induction l as [|segment rest IH]; [reflexivity|]. cbn [omap list_omap List.map List.filter].
  rewrite isAllowlist_resolvesTo.
  destruct (matchOf hostPlatform params segment) as [entry|]; cbn; now rewrite IH.
Qed.

(** X9.  The trail [evaluateSegments] returns has one entry per segment it
    looked at, in order, and never more entries than segments; it has as
    many allowlist matches as entries that say [allowlist]; when the
    pipeline is satisfied the trail covers every segment and holds no
    [null]; when it is not, the trail ends in the one [null] it holds. *)
Theorem evaluateSegments_trail hostPlatform params (segments : list ExecCommandSegment) :
  length (Segments.segmentSatisfiedBy (evaluateSegments hostPlatform segments params))
    <= length segments
  /\ length (Segments.matches (evaluateSegments hostPlatform segments params))
     = length (List.filter isAllowlist
                 (Segments.segmentSatisfiedBy
                    (evaluateSegments hostPlatform segments params)))
  /\ (Segments.satisfied (evaluateSegments hostPlatform segments params) = true ->
      Segments.segmentSatisfiedBy (evaluateSegments hostPlatform segments params)
      = List.map (resolvesTo hostPlatform params) segments
      /\ Forall (fun b => isSatisfied b = true)
           (Segments.segmentSatisfiedBy
              (evaluateSegments hostPlatform segments params)))
  /\ (Segments.satisfied (evaluateSegments hostPlatform segments params) = false ->
      exists earlier,
        Segments.segmentSatisfiedBy (evaluateSegments hostPlatform segments params)
        = earlier ++ [SatisfiedByNull]
        /\ Forall (fun b => isSatisfied b = true) earlier).
Proof.
  unfold evaluateSegments. rewrite everySegment_spec.
  cbn [Segments.satisfied Segments.matches Segments.segmentSatisfiedBy app].
  split; [|split; [|split]].
  - rewrite length_map. apply evaluatedSegments_length.
  - apply matches_count.
  - intros Hall. rewrite (evaluatedSegments_all _ _ _ Hall). split; [reflexivity|].
    rewrite forallb_forall in Hall. apply List.Forall_forall.
    intros b Hb. apply in_map_iff in Hb as (s & <- & Hs). now apply Hall.
  - intros Hstop.
    destruct (evaluatedSegments_stop _ _ _ Hstop) as (earlier & last & -> & Hall & Hlast).
    exists (List.map (resolvesTo hostPlatform params) earlier).
    rewrite List.map_app. cbn [List.map]. rewrite Hlast. split; [reflexivity|].
    apply List.Forall_forall. intros b Hb. apply in_map_iff in Hb as (s & <- & Hs).
    rewrite List.Forall_forall in Hall. now apply Hall.
Qed.

Lemma forallb_concat {A : Type} (f : A -> bool) (ls : list (list A)) :
  forallb (fun l => forallb f l) ls = forallb f (concat ls).
Proof.
  induction ls as [|l ls IH]; simpl; [reflexivity|].
  now rewrite forallb_app, IH.
Qed.

Lemma chain_results_flatten hostPlatform params (parts : list (list ExecCommandSegment)) :
  forallb (fun s => isSatisfied (resolvesTo hostPlatform params s)) (concat parts) = true ->
  concat (List.map (fun part =>
            Segments.matches (evaluateSegments hostPlatform part params)) parts)
  = omap (matchOf hostPlatform params) (concat parts)
  /\ concat (List.map (fun part =>
               Segments.segmentSatisfiedBy (evaluateSegments hostPlatform part params))
               parts)
     = List.map (resolvesTo hostPlatform params) (concat parts).
Proof.
  induction parts as [|part rest IH]; simpl; [now split|].
  rewrite forallb_app. intros H. apply andb_true_iff in H as [Hpart Hrest].
  destruct (IH Hrest) as [-> ->].
  unfold evaluateSegments. rewrite everySegment_spec.
  cbn [Segments.matches Segments.segmentSatisfiedBy app].
  rewrite (evaluatedSegments_all _ _ _ Hpart), omap_app, List.map_app. now split.
Qed.

(** X10.  Evaluating the chain parts one after the other decides as
    evaluating their concatenation as a single pipeline does: for an
    analysis that is ok, has segments and has chains, the result is
    satisfied exactly when [evaluateSegments] is satisfied on all the
    segments of all the parts, and then it carries the matches and the trail
    of that one evaluation; otherwise it is the empty denial. *)
Theorem evaluateExecAllowlist_chains_as_one_pipeline hostPlatform analysis params
    (parts : list (list ExecCommandSegment)) :
  ok analysis = true ->
  segments analysis <> [] ->
  chains analysis = Some parts ->
  evaluateExecAllowlist hostPlatform analysis params
  = if Segments.satisfied (evaluateSegments hostPlatform (concat parts) params)
    then
      {| allowlistSatisfied := true;
         allowlistMatches :=
           Segments.matches (evaluateSegments hostPlatform (concat parts) params);
         segmentSatisfiedBy :=
           Segments.segmentSatisfiedBy
             (evaluateSegments hostPlatform (concat parts) params) |}
    else
      {| allowlistSatisfied := false; allowlistMatches := [];
         segmentSatisfiedBy := [] |}.
Proof.
  intros Hok Hsegs Hchains.
  rewrite (evaluateExecAllowlist_chained _ _ _ parts Hok Hsegs Hchains).
  rewrite evaluateChains_spec.
  assert (Hall : forallb (fun part =>
                    Segments.satisfied (evaluateSegments hostPlatform part params)) parts
                 = forallb (fun s => isSatisfied (resolvesTo hostPlatform params s))
                     (concat parts)).
  { rewrite <- forallb_concat. clear Hchains.
    induction parts as [|part rest IH]; [reflexivity|].
    cbn [forallb]. now rewrite evaluateSegments_satisfied, IH. }
  rewrite Hall, evaluateSegments_satisfied.
  destruct (forallb _ (concat parts)) eqn:Hflat; [|reflexivity].
  destruct (chain_results_flatten _ _ _ Hflat) as [-> ->].
  unfold evaluateSegments. rewrite everySegment_spec.
  cbn [Segments.matches Segments.segmentSatisfiedBy app].
  now rewrite (evaluatedSegments_all _ _ _ Hflat).
Qed.

End EvaluatorFurther.

(** ** The safe-bin gate and the trail of a whole command *)

Section ShellFurther.
Context `{E : Externals}.
Implicit Types (hostPlatform : string) (params : AllowlistParams ExecAllowlistEntry).
Implicit Types (segment : ExecCommandSegment) (analysis : ExecCommandAnalysis).

(** X11.  What an approval by the safe-bin gate implies: the host is not
    Windows, the safe-bin set is not empty, the segment has a resolution
    whose lower-cased executable name is not empty, whose resolved path is
    present, not empty and trusted, and whose arguments after the first
    pass the validator under the profile registered for the lower-cased
    name (the generic one when there is none); the lower-cased name is in
    the safe-bin set, unless the host platform is ["win32"] and the name
    without its extension is; and that exception never applies when
    [isWindowsPlatform] recognises ["win32"]. *)
Theorem isSafeBinUsage_approval hostPlatform (argv : list string)
    (resolution : option CommandResolution) (safeBins : gset string)
    (cwd : option string) (trustedSafeBinDirs : option (gset string)) :
  isSafeBinUsage hostPlatform argv resolution safeBins cwd trustedSafeBinDirs = true ->
  isWindowsPlatform (JsValue hostPlatform) = false
  /\ safeBins <> ∅
  /\ exists r path,
       resolution = Some r
       /\ toLowerCase (executableName r) <> ""
       /\ resolvedPath r = Some path /\ path <> ""
       /\ isTrustedSafeBinPath path trustedSafeBinDirs = true
       /\ (toLowerCase (executableName r) ∈ safeBins
           \/ (hostPlatform = "win32"
               /\ pathParseName (toLowerCase (executableName r)) ∈ safeBins))
       /\ (isWindowsPlatform (JsValue "win32") = true ->
           toLowerCase (executableName r) ∈ safeBins)
       /\ validateSafeBinArgv (tail argv)
            (default SAFE_BIN_GENERIC_PROFILE
               (SAFE_BIN_PROFILES !! toLowerCase (executableName r))) = true.
Proof.
  unfold isSafeBinUsage.
  destruct (isWindowsPlatform (JsValue hostPlatform)) eqn:Hwindows; [discriminate|].
  destruct (Nat.eqb_spec (size safeBins) 0) as [|Hsize]; [discriminate|].
  destruct resolution as [r|]; [|discriminate]. cbn [fmap option_fmap option_map].
  destruct (isEmpty (toLowerCase (executableName r))) eqn:Hname; [discriminate|].
  destruct (has safeBins (toLowerCase (executableName r))
            || (hostPlatform =? "win32")
               && has safeBins (pathParseName (toLowerCase (executableName r))))
    eqn:Hmember; [|discriminate].
  cbn [negb mbind option_bind].
  destruct (resolvedPath r) as [path|] eqn:Hresolved; [|discriminate].
  destruct (isEmpty path) eqn:Hpath; [discriminate|].
  destruct (isTrustedSafeBinPath path trustedSafeBinDirs) eqn:Htrusted; [|discriminate].
  cbn [negb]. intros Hvalid.
  split; [reflexivity|]. split; [intros ->; now apply Hsize|].
  exists r, path.
  assert (Hcases : toLowerCase (executableName r) ∈ safeBins
                   \/ (hostPlatform = "win32"
                       /\ pathParseName (toLowerCase (executableName r)) ∈ safeBins)).
  { apply orb_true_iff in Hmember as [Hin | Hwin].
    - left. now apply has_true.
    - right. apply andb_true_iff in Hwin as [Heq Hin].
      split; [now apply String.eqb_eq | now apply has_true]. }
  repeat split; try assumption; try (now apply isEmpty_false).
  intros Hwin32. destruct Hcases as [Hin | [-> _]]; [exact Hin|]. congruence.
Qed.

(** Every entry of the trail of a whole command is the attribution of one
    of the command's segments. *)

Lemma attributionIn_incl hostPlatform params (among among' : list ExecCommandSegment)
    (trail : list ExecSegmentSatisfiedBy) :
  (forall segment, In segment among -> In segment among') ->
  Forall (attributionIn hostPlatform params among) trail ->
  Forall (attributionIn hostPlatform params among') trail.
Proof.
  intros Hincl Htrail. eapply Forall_impl; [exact Htrail|].
  intros b (segment & Hin & ->). exists segment. split; [now apply Hincl | reflexivity].
Qed.

Lemma evaluatedSegments_incl hostPlatform params (segments : list ExecCommandSegment)
    segment :
  In segment (evaluatedSegments hostPlatform params segments) -> In segment segments.
Proof.
  induction segments as [|s rest IH]; simpl; [tauto|].
  destruct (isSatisfied _); simpl; tauto.
Qed.

Lemma evaluateSegments_located hostPlatform params (segments : list ExecCommandSegment) :
  Forall (attributionIn hostPlatform params segments)
    (Segments.segmentSatisfiedBy (evaluateSegments hostPlatform segments params)).
Proof.
  unfold evaluateSegments. rewrite everySegment_spec.
  cbn [Segments.segmentSatisfiedBy app].
  apply List.Forall_forall. intros b Hb. apply in_map_iff in Hb as (s & <- & Hs).
  exists s. split; [now apply evaluatedSegments_incl in Hs | reflexivity].
Qed.

Lemma evaluateExecAllowlist_located hostPlatform params analysis :
  Forall (attributionIn hostPlatform params (analysisSegments analysis))
    (segmentSatisfiedBy (evaluateExecAllowlist hostPlatform analysis params)).
Proof.
  unfold evaluateExecAllowlist, analysisSegments.
  destruct (negb (ok analysis) || _); [constructor|].
  destruct (chains analysis) as [parts|].
  - rewrite evaluateChains_spec. destruct (forallb _ parts); [|constructor].
    cbn [segmentSatisfiedBy app]. apply Forall_concat.
    apply List.Forall_forall. intros trail Htrail.
    apply in_map_iff in Htrail as (part & <- & Hpart).
    apply (attributionIn_incl _ _ part); [|apply evaluateSegments_located].
    intros segment Hsegment. apply in_concat. exists part. now split.
  - cbn [segmentSatisfiedBy]. apply evaluateSegments_located.
Qed.

Lemma evaluateChainParts_located hostPlatform (env : option ProcessEnv)
    (platform : JsOpt string) params (among : list ExecCommandSegment)
    (chainParts : list string) :
  (forall part segment,
      In part chainParts ->
      In segment (analysisSegments (partAnalysis env platform params part)) ->
      In segment among) ->
  forall accMatches accSegments accSatisfiedBy,
    Forall (attributionIn hostPlatform params among) accSatisfiedBy ->
    Forall (attributionIn hostPlatform params among)
      (Shell.segmentSatisfiedBy
         (evaluateChainParts hostPlatform env platform params chainParts
            accMatches accSegments accSatisfiedBy)).
Proof.
  induction chainParts as [|part rest IH];
    intros Hamong accMatches accSegments accSatisfiedBy Hacc; [exact Hacc|].
  cbn [evaluateChainParts].
  destruct (negb (ok _)); [constructor|].
  assert (Hnext : Forall (attributionIn hostPlatform params among)
            (accSatisfiedBy ++ segmentSatisfiedBy
               (evaluateExecAllowlist hostPlatform
                  (analyzeShellCommand part (cwd params) env platform) params))).
  { apply Forall_app. split; [exact Hacc|].
    eapply attributionIn_incl; [|apply evaluateExecAllowlist_located].
    intros segment Hsegment. apply (Hamong part); [now left | exact Hsegment]. }
  destruct (negb (allowlistSatisfied _)); [exact Hnext|].
  apply IH; [|exact Hnext].
  intros part' segment Hpart'. apply Hamong. now right.
Qed.

Lemma evaluateShellAllowlist_located hostPlatform (command : string)
    (env : option ProcessEnv) (platform : JsOpt string) params :
  Forall (attributionIn hostPlatform params
            (commandSegments command env platform params))
    (Shell.segmentSatisfiedBy
       (evaluateShellAllowlist hostPlatform command env platform params)).
Proof.
  unfold evaluateShellAllowlist, commandSegments, commandAnalyses.
  destruct (if isWindowsPlatform platform then None else splitCommandChain command)
    as [chainParts|].
  - apply evaluateChainParts_located; [|constructor].
    intros part segment Hpart Hsegment. apply in_concat.
    exists (analysisSegments (partAnalysis env platform params part)).
    split; [|exact Hsegment]. apply in_map, in_map, Hpart.
  - destruct (negb (ok _)); [constructor|]. cbn [Shell.segmentSatisfiedBy].
    eapply attributionIn_incl; [|apply evaluateExecAllowlist_located].
    intros segment Hsegment. cbn. rewrite app_nil_r. exact Hsegment.
Qed.

(** X12.  A whole command is never attributed to a safe bin on a Windows
    host or with an empty safe-bin set: if the trail returned by
    [evaluateShellAllowlist] holds [safeBins], then the host platform is not
    Windows, the safe-bin set is not empty, and one of the segments of the
    command (a segment that the analysis of the command, or of one of its
    chain parts, hands to the evaluator) resolves to [safeBins] and was
    approved by the safe-bin gate. *)
Theorem evaluateShellAllowlist_safeBins_in_trail hostPlatform (command : string)
    (env : option ProcessEnv) (platform : JsOpt string) params :
  In SatisfiedBySafeBins
    (Shell.segmentSatisfiedBy
       (evaluateShellAllowlist hostPlatform command env platform params)) ->
  isWindowsPlatform (JsValue hostPlatform) = false
  /\ safeBins params <> ∅
  /\ exists segment,
       In segment (commandSegments command env platform params)
       /\ resolvesTo hostPlatform params segment = SatisfiedBySafeBins
       /\ isSafeBinUsage hostPlatform (argv segment) (resolution segment)
            (safeBins params) (cwd params) (trustedSafeBinDirs params) = true.
Proof.
  intros Hin.
  pose proof (evaluateShellAllowlist_located hostPlatform command env platform params)
    as Htrail.
  rewrite List.Forall_forall in Htrail.
  destruct (Htrail _ Hin) as (segment & Hsegment & Hby). symmetry in Hby.
  destruct (resolvesTo_safeBins _ _ _ Hby) as [_ Hsafe].
  destruct (isSafeBinUsage_approval _ _ _ _ _ _ Hsafe) as (Hhost & Hbins & _).
  split; [exact Hhost|]. split; [exact Hbins|]. exists segment. now repeat split.
Qed.

(** X13.  A whole command is never attributed to a skill unless skills are
    switched on: if the trail returned by [evaluateShellAllowlist] holds
    [skills], then [autoAllowSkills] is exactly [true], [skillBins] is
    present, and one of the segments of the command resolves to [skills]:
    the allowlist did not match it, the safe-bin gate did not approve it,
    and its executable name is not empty and is, as it stands, in
    [skillBins]. *)
Theorem evaluateShellAllowlist_skills_in_trail hostPlatform (command : string)
    (env : option ProcessEnv) (platform : JsOpt string) params :
  In SatisfiedBySkills
    (Shell.segmentSatisfiedBy
       (evaluateShellAllowlist hostPlatform command env platform params)) ->
  autoAllowSkills params = Some true
  /\ exists bins segment r,
       skillBins params = Some bins
       /\ In segment (commandSegments command env platform params)
       /\ resolvesTo hostPlatform params segment = SatisfiedBySkills
       /\ resolution segment = Some r
       /\ executableName r <> "" /\ executableName r ∈ bins
       /\ matchOf hostPlatform params segment = None
       /\ isSafeBinUsage hostPlatform (argv segment) (resolution segment)
            (safeBins params) (cwd params) (trustedSafeBinDirs params) = false.
Proof.
  intros Hin.
  pose proof (evaluateShellAllowlist_located hostPlatform command env platform params)
    as Htrail.
  rewrite List.Forall_forall in Htrail.
  destruct (Htrail _ Hin) as (segment & Hsegment & Hby). symmetry in Hby.
  destruct (resolvesTo_skills _ _ _ Hby)
    as (Hmatch & Hsafe & Hauto & bins & r & Hbins & Hres & Hname & Hmember).
  split; [exact Hauto|]. exists bins, segment, r. repeat split; assumption.
Qed.

End ShellFurther.

(** ** Chain parts of a whole command *)

Section ChainParts.
Context `{E : Externals}.
Implicit Types (hostPlatform : string) (params : AllowlistParams ExecAllowlistEntry).

Lemma evaluateChainParts_ok hostPlatform (env : option ProcessEnv)
    (platform : JsOpt string) params (chainParts : list string) :
  forall accMatches accSegments accSatisfiedBy,
    evaluateChainParts hostPlatform env platform params chainParts
      accMatches accSegments accSatisfiedBy = analysisFailure
    \/ Shell.analysisOk
         (evaluateChainParts hostPlatform env platform params chainParts
            accMatches accSegments accSatisfiedBy) = true.
Proof.
  induction chainParts as [|part rest IH];
    intros accMatches accSegments accSatisfiedBy; [now right|].
  cbn [evaluateChainParts].
  destruct (negb (ok _)); [now left|].
  destruct (negb (allowlistSatisfied _)); [now right | apply IH].
Qed.

(** X14.  [evaluateShellAllowlist] fails closed on an analysis failure:
    its result either reports [analysisOk: true] or is the failure result,
    which is not satisfied and whose matches, segments and trail are all
    empty, whatever earlier chain parts had contributed; in particular a
    satisfied result always reports [analysisOk: true]. *)
Theorem evaluateShellAllowlist_fails_closed hostPlatform (command : string)
    (env : option ProcessEnv) (platform : JsOpt string) params :
  (Shell.analysisOk
     (evaluateShellAllowlist hostPlatform command env platform params) = false ->
   evaluateShellAllowlist hostPlatform command env platform params
   = {| Shell.analysisOk := false;
        Shell.allowlistSatisfied := false;
        Shell.allowlistMatches := [];
        Shell.segments := [];
        Shell.segmentSatisfiedBy := [] |})
  /\ (Shell.allowlistSatisfied
        (evaluateShellAllowlist hostPlatform command env platform params) = true ->
      Shell.analysisOk
        (evaluateShellAllowlist hostPlatform command env platform params) = true).
Proof.
  assert (Hcases :
    evaluateShellAllowlist hostPlatform command env platform params = analysisFailure
    \/ Shell.analysisOk
         (evaluateShellAllowlist hostPlatform command env platform params) = true).
  { unfold evaluateShellAllowlist.
    destruct (if isWindowsPlatform platform then None else splitCommandChain command)
      as [chainParts|]; [apply evaluateChainParts_ok|].
    destruct (negb (ok _)); [now left | now right]. }
  split.
  - intros Hfailed. destruct Hcases as [Heq | Hok]; [exact Heq | congruence].
  - intros Hsatisfied. destruct Hcases as [Heq | Hok]; [|exact Hok].
    rewrite Heq in Hsatisfied. discriminate.
Qed.

(** The parts that pass only append to the three arrays. *)
Lemma evaluateChainParts_passed hostPlatform (env : option ProcessEnv)
    (platform : JsOpt string) params (passed rest : list string) :
  forallb (partPasses hostPlatform env platform params) passed = true ->
  forall accMatches accSegments accSatisfiedBy,
    evaluateChainParts hostPlatform env platform params (passed ++ rest)
      accMatches accSegments accSatisfiedBy
    = evaluateChainParts hostPlatform env platform params rest
        (accMatches ++ partsMatches hostPlatform env platform params passed)
        (accSegments ++ partsSegments env platform params passed)
        (accSatisfiedBy ++ partsTrail hostPlatform env platform params passed).
Proof.
  unfold partsMatches, partsSegments, partsTrail.
  induction passed as [|part passed IH]; intros Hpass accMatches accSegments accSatisfiedBy.
  - simpl. now rewrite !app_nil_r.
  - cbn [forallb] in Hpass. apply andb_true_iff in Hpass as [Hpart Hpassed].
    unfold partPasses, partEvaluation, partAnalysis in Hpart.
    apply andb_true_iff in Hpart as [Hok Hsat].
    cbn [app evaluateChainParts]. rewrite Hok, Hsat. cbn [negb].
    rewrite (IH Hpassed). cbn [List.map concat].
    unfold partEvaluation, partAnalysis. now rewrite <- !app_assoc.
Qed.

(** X15.  How the loop over the chain parts ends, when the platform passed
    in is not Windows and the command splits into parts of which a first
    stretch passes (each analysed ok and evaluated satisfied).  If nothing
    follows, the result is satisfied and carries the matches, segments and
    trails of all parts in order.  If the next part is not analysed ok, the
    result is the failure result, which drops what the parts before
    yielded.  If the next part is analysed ok and not satisfied, the result
    is denied with [analysisOk: true] and carries the matches, segments and
    trails of the parts up to and including that one; no later part is
    looked at. *)
Theorem evaluateShellAllowlist_chain_parts hostPlatform (command : string)
    (env : option ProcessEnv) (platform : JsOpt string) params
    (passed rest : list string) :
  isWindowsPlatform platform = false ->
  splitCommandChain command = Some (passed ++ rest) ->
  forallb (partPasses hostPlatform env platform params) passed = true ->
  (rest = [] ->
   evaluateShellAllowlist hostPlatform command env platform params
   = {| Shell.analysisOk := true;
        Shell.allowlistSatisfied := true;
        Shell.allowlistMatches := partsMatches hostPlatform env platform params passed;
        Shell.segments := partsSegments env platform params passed;
        Shell.segmentSatisfiedBy := partsTrail hostPlatform env platform params passed |})
  /\ (forall part later,
        rest = part :: later ->
        ok (partAnalysis env platform params part) = false ->
        evaluateShellAllowlist hostPlatform command env platform params
        = {| Shell.analysisOk := false;
             Shell.allowlistSatisfied := false;
             Shell.allowlistMatches := [];
             Shell.segments := [];
             Shell.segmentSatisfiedBy := [] |})
  /\ (forall part later,
        rest = part :: later ->
        ok (partAnalysis env platform params part) = true ->
        allowlistSatisfied (partEvaluation hostPlatform env platform params part) = false ->
        evaluateShellAllowlist hostPlatform command env platform params
        = {| Shell.analysisOk := true;
             Shell.allowlistSatisfied := false;
             Shell.allowlistMatches :=
               partsMatches hostPlatform env platform params (passed ++ [part]);
             Shell.segments := partsSegments env platform params (passed ++ [part]);
             Shell.segmentSatisfiedBy :=
               partsTrail hostPlatform env platform params (passed ++ [part]) |}).
Proof.
  intros Hplatform Hsplit Hpassed.
  unfold evaluateShellAllowlist. rewrite Hplatform, Hsplit.
  rewrite (evaluateChainParts_passed _ _ _ _ _ _ Hpassed). cbn [app].
  split; [|split].
  - intros ->. reflexivity.
  - intros part later -> Hok. unfold partAnalysis in Hok.
    cbn [evaluateChainParts]. now rewrite Hok.
  - intros part later -> Hok Hdenied. unfold partEvaluation, partAnalysis in *.
    cbn [evaluateChainParts]. rewrite Hok, Hdenied. cbn [negb].
    unfold partsMatches, partsSegments, partsTrail, partEvaluation, partAnalysis.
    rewrite !List.map_app, !concat_app. cbn [List.map concat].
    now rewrite !app_nil_r.
Qed.

End ChainParts.

(** ** Segments and trail of a whole command, side by side *)

Section Alignment.
Context `{E : Externals}.
Implicit Types (hostPlatform : string) (params : AllowlistParams ExecAllowlistEntry).

#[local] Arguments resolvesTo : simpl never.
#[local] Arguments matchOf : simpl never.

Lemma chains_satisfied_flatten hostPlatform params
    (parts : list (list ExecCommandSegment)) :
  forallb (fun part =>
             Segments.satisfied (evaluateSegments hostPlatform part params)) parts
  = forallb (fun s => isSatisfied (resolvesTo hostPlatform params s)) (concat parts).
Proof.
  rewrite <- forallb_concat. induction parts as [|part rest IH]; [reflexivity|].
  cbn [forallb]. now rewrite evaluateSegments_satisfied, IH.
Qed.

(** An analysis whose chains, if it has any, flatten to its segments,
    evaluated: the trail is no longer than the segments, and when the
    evaluation is satisfied, trail and matches are those of the segments,
    one by one. *)
Lemma evaluateExecAllowlist_aligned hostPlatform
    (analysis : ExecCommandAnalysis) params :
  analysisSegments analysis = segments analysis ->
  length (segmentSatisfiedBy (evaluateExecAllowlist hostPlatform analysis params))
    <= length (segments analysis)
  /\ (allowlistSatisfied (evaluateExecAllowlist hostPlatform analysis params) = true ->
      segmentSatisfiedBy (evaluateExecAllowlist hostPlatform analysis params)
      = List.map (resolvesTo hostPlatform params) (segments analysis)
      /\ allowlistMatches (evaluateExecAllowlist hostPlatform analysis params)
         = omap (matchOf hostPlatform params) (segments analysis)).
Proof.
  unfold analysisSegments, evaluateExecAllowlist.
  destruct (negb (ok analysis) || _); [intros _; split; [simpl; lia | discriminate]|].
  destruct (chains analysis) as [parts|].
  - intros <-. rewrite evaluateChains_spec, chains_satisfied_flatten.
    destruct (forallb _ (concat parts)) eqn:Hflat.
    + destruct (chain_results_flatten _ _ _ Hflat) as [Hmatches Htrail].
      cbn [allowlistSatisfied allowlistMatches segmentSatisfiedBy app].
      rewrite Hmatches, Htrail, length_map. split; [lia | now split].
    + split; [simpl; lia | discriminate].
  - intros _. unfold evaluateSegments. rewrite everySegment_spec.
    cbn [allowlistSatisfied allowlistMatches segmentSatisfiedBy
         Segments.satisfied Segments.matches Segments.segmentSatisfiedBy app].
    split.
    + rewrite length_map. apply evaluatedSegments_length.
    + intros Hall. now rewrite (evaluatedSegments_all _ _ _ Hall).
Qed.

Lemma evaluateChainParts_aligned hostPlatform (env : option ProcessEnv)
    (platform : JsOpt string) params (chainParts : list string) :
  (forall part,
      In part chainParts ->
      analysisSegments (partAnalysis env platform params part)
      = segments (partAnalysis env platform params part)) ->
  forall accMatches accSegments accSatisfiedBy,
    length accSatisfiedBy <= length accSegments ->
    (accSatisfiedBy = List.map (resolvesTo hostPlatform params) accSegments
     /\ accMatches = omap (matchOf hostPlatform params) accSegments) ->
    length (Shell.segmentSatisfiedBy
              (evaluateChainParts hostPlatform env platform params chainParts
                 accMatches accSegments accSatisfiedBy))
      <= length (Shell.segments
                   (evaluateChainParts hostPlatform env platform params chainParts
                      accMatches accSegments accSatisfiedBy))
    /\ (Shell.allowlistSatisfied
          (evaluateChainParts hostPlatform env platform params chainParts
             accMatches accSegments accSatisfiedBy) = true ->
        Shell.segmentSatisfiedBy
          (evaluateChainParts hostPlatform env platform params chainParts
             accMatches accSegments accSatisfiedBy)
        = List.map (resolvesTo hostPlatform params)
            (Shell.segments
               (evaluateChainParts hostPlatform env platform params chainParts
                  accMatches accSegments accSatisfiedBy))
        /\ Shell.allowlistMatches
             (evaluateChainParts hostPlatform env platform params chainParts
                accMatches accSegments accSatisfiedBy)
           = omap (matchOf hostPlatform params)
               (Shell.segments
                  (evaluateChainParts hostPlatform env platform params chainParts
                     accMatches accSegments accSatisfiedBy))).
Proof.
  induction chainParts as [|part rest IH];
    intros Hflat accMatches accSegments accSatisfiedBy Hlen Hacc.
  - cbn. split; [exact Hlen | intros _; exact Hacc].
  - cbn [evaluateChainParts].
    destruct (negb (ok _)); [split; [cbn; lia | discriminate]|].
    destruct (evaluateExecAllowlist_aligned hostPlatform
                (analyzeShellCommand part (cwd params) env platform) params
                (Hflat part (or_introl eq_refl))) as [Hpartlen Hpart].
    destruct (allowlistSatisfied _) eqn:Hsat; cbn [negb].
    + destruct (Hpart eq_refl) as [Htrail Hmatches]. destruct Hacc as [-> ->].
      apply IH.
      * intros part' Hpart'. apply Hflat. now right.
      * rewrite !length_app. lia.
      * rewrite Htrail, Hmatches, List.map_app, omap_app. now split.
    + split; [|discriminate]. cbn. rewrite !length_app. lia.
Qed.

(** X16.  When the chains of each analysis made for the command, where it
    has chains, flatten to its segments (so in particular when these
    analyses carry no chains), the [segments] and the [segmentSatisfiedBy]
    that [evaluateShellAllowlist] returns go side by side: the trail is
    never longer than the segments, and in a satisfied result the trail is
    the attribution of each returned segment in order and the matches are
    the allowlist matches of the returned segments in order. *)
Theorem evaluateShellAllowlist_trail_aligned hostPlatform (command : string)
    (env : option ProcessEnv) (platform : JsOpt string) params :
  (forall analysis,
      In analysis (commandAnalyses command env platform params) ->
      analysisSegments analysis = segments analysis) ->
  length (Shell.segmentSatisfiedBy
            (evaluateShellAllowlist hostPlatform command env platform params))
    <= length (Shell.segments
                 (evaluateShellAllowlist hostPlatform command env platform params))
  /\ (Shell.allowlistSatisfied
        (evaluateShellAllowlist hostPlatform command env platform params) = true ->
      Shell.segmentSatisfiedBy
        (evaluateShellAllowlist hostPlatform command env platform params)
      = List.map (resolvesTo hostPlatform params)
          (Shell.segments
             (evaluateShellAllowlist hostPlatform command env platform params))
      /\ Shell.allowlistMatches
           (evaluateShellAllowlist hostPlatform command env platform params)
         = omap (matchOf hostPlatform params)
             (Shell.segments
                (evaluateShellAllowlist hostPlatform command env platform params))).
Proof.
  unfold commandAnalyses, evaluateShellAllowlist.
  destruct (if isWindowsPlatform platform then None else splitCommandChain command)
    as [chainParts|]; intros Hflat.
  - apply evaluateChainParts_aligned; [|reflexivity | now split].
    intros part Hpart. apply Hflat. now apply in_map.
  - destruct (negb (ok _)); [split; [cbn; lia | discriminate]|].
    cbn [Shell.allowlistSatisfied Shell.allowlistMatches Shell.segments
         Shell.segmentSatisfiedBy].
    apply evaluateExecAllowlist_aligned, Hflat. now left.
Qed.

End Alignment.

(** ** The further properties on concrete commands *)

Lemma isSafeBinUsage_approval_witness :
  isSafeBinUsage (E := Fixture.externals) "linux" ["GREP"; "-i"; "-e"; "x"]
    (Some {| executableName := "GREP"; resolvedPath := Some "/usr/bin/grep" |})
    (safeBins Fixture.safeBinsOnly) None None = true
  /\ isWindowsPlatform (Externals := Fixture.externals) (JsValue "linux") = false
  /\ safeBins Fixture.safeBinsOnly <> ∅.
Proof.
  assert (Happroved :
    isSafeBinUsage (E := Fixture.externals) "linux" ["GREP"; "-i"; "-e"; "x"]
      (Some {| executableName := "GREP"; resolvedPath := Some "/usr/bin/grep" |})
      (safeBins Fixture.safeBinsOnly) None None = true) by (vm_compute; reflexivity).
  split; [exact Happroved|].
  destruct (isSafeBinUsage_approval (E := Fixture.externals) "linux"
              ["GREP"; "-i"; "-e"; "x"]
              (Some {| executableName := "GREP"; resolvedPath := Some "/usr/bin/grep" |})
              (safeBins Fixture.safeBinsOnly) None None Happroved)
    as (Hhost & Hbins & _).
  split; [exact Hhost | exact Hbins].
Defined.


(** X9 on the pipeline [ls | rm -rf x | head -n 5] with [/usr/bin/ls]
    allowlisted: the trail stops at [rm]. *)
Lemma evaluateSegments_trail_witness :
  Segments.satisfied
    (evaluateSegments (E := Fixture.externals) "linux"
       [Fixture.lsSegment; Fixture.rmSegment; Fixture.headSegment]
       Fixture.withAllowlistedLs) = false
  /\ exists earlier,
       Segments.segmentSatisfiedBy
         (evaluateSegments (E := Fixture.externals) "linux"
            [Fixture.lsSegment; Fixture.rmSegment; Fixture.headSegment]
            Fixture.withAllowlistedLs)
       = earlier ++ [SatisfiedByNull]
       /\ Forall (fun b => isSatisfied b = true) earlier.
Proof.
  assert (Hdenied :
    Segments.satisfied
      (evaluateSegments (E := Fixture.externals) "linux"
         [Fixture.lsSegment; Fixture.rmSegment; Fixture.headSegment]
         Fixture.withAllowlistedLs) = false) by (vm_compute; reflexivity).
  split; [exact Hdenied|].
  exact (proj2 (proj2 (proj2
           (evaluateSegments_trail (E := Fixture.externals) "linux"
              Fixture.withAllowlistedLs
              [Fixture.lsSegment; Fixture.rmSegment; Fixture.headSegment])))
           Hdenied).
Defined.

(** X10 on a chain of two satisfied parts. *)
Lemma evaluateExecAllowlist_chains_as_one_pipeline_witness :
  ok Samples.safeChain = true
  /\ segments Samples.safeChain <> []
  /\ chains Samples.safeChain
     = Some [[Fixture.segmentOf "grep -e x"; Fixture.headSegment];
             [Fixture.segmentOf "head -n 1"]]
  /\ evaluateExecAllowlist (E := Fixture.externals) "linux" Samples.safeChain
       Fixture.safeBinsOnly
     = {| allowlistSatisfied := true; allowlistMatches := [];
          segmentSatisfiedBy :=
            [SatisfiedBySafeBins; SatisfiedBySafeBins; SatisfiedBySafeBins] |}.
Proof.
  assert (Hok : ok Samples.safeChain = true) by reflexivity.
  assert (Hsegs : segments Samples.safeChain <> []) by discriminate.
  assert (Hchains : chains Samples.safeChain
                    = Some [[Fixture.segmentOf "grep -e x"; Fixture.headSegment];
                            [Fixture.segmentOf "head -n 1"]]) by reflexivity.
  repeat (split; [assumption|]).
  rewrite (evaluateExecAllowlist_chains_as_one_pipeline (E := Fixture.externals)
             "linux" Samples.safeChain Fixture.safeBinsOnly _ Hok Hsegs Hchains).
  vm_compute. reflexivity.
Defined.

(** X12 on [ls | head -n 5] with [head] a safe bin and [ls] allowlisted. *)
Lemma evaluateShellAllowlist_safeBins_in_trail_witness :
  In SatisfiedBySafeBins
    (Shell.segmentSatisfiedBy
       (evaluateShellAllowlist (E := Fixture.externals) "linux" "ls | head -n 5" None
          JsUndefined Fixture.withAllowlistedLs))
  /\ isWindowsPlatform (Externals := Fixture.externals) (JsValue "linux") = false
  /\ safeBins Fixture.withAllowlistedLs <> ∅
  /\ exists segment,
       In segment (commandSegments (E := Fixture.externals) "ls | head -n 5" None
                     JsUndefined Fixture.withAllowlistedLs)
       /\ resolvesTo (E := Fixture.externals) "linux" Fixture.withAllowlistedLs segment
          = SatisfiedBySafeBins
       /\ isSafeBinUsage (E := Fixture.externals) "linux" (argv segment)
            (resolution segment) (safeBins Fixture.withAllowlistedLs)
            (cwd Fixture.withAllowlistedLs)
            (trustedSafeBinDirs Fixture.withAllowlistedLs) = true.
Proof.
  assert (Hin : In SatisfiedBySafeBins
            (Shell.segmentSatisfiedBy
               (evaluateShellAllowlist (E := Fixture.externals) "linux"
                  "ls | head -n 5" None JsUndefined Fixture.withAllowlistedLs)))
    by (vm_compute; right; left; reflexivity).
  split; [exact Hin|].
  exact (evaluateShellAllowlist_safeBins_in_trail (E := Fixture.externals)
           "linux" "ls | head -n 5" None JsUndefined Fixture.withAllowlistedLs Hin).
Defined.

(** X13 on [deploy now] with the skill [deploy] allowed. *)
Lemma evaluateShellAllowlist_skills_in_trail_witness :
  In SatisfiedBySkills
    (Shell.segmentSatisfiedBy
       (evaluateShellAllowlist (E := Fixture.externals) "linux" "deploy now" None
          JsUndefined Samples.skillsOnly))
  /\ autoAllowSkills Samples.skillsOnly = Some true
  /\ exists bins segment r,
       skillBins Samples.skillsOnly = Some bins
       /\ In segment (commandSegments (E := Fixture.externals) "deploy now" None
                        JsUndefined Samples.skillsOnly)
       /\ resolvesTo (E := Fixture.externals) "linux" Samples.skillsOnly segment
          = SatisfiedBySkills
       /\ resolution segment = Some r
       /\ executableName r <> "" /\ executableName r ∈ bins
       /\ matchOf (E := Fixture.externals) "linux" Samples.skillsOnly segment = None
       /\ isSafeBinUsage (E := Fixture.externals) "linux" (argv segment)
            (resolution segment) (safeBins Samples.skillsOnly)
            (cwd Samples.skillsOnly) (trustedSafeBinDirs Samples.skillsOnly) = false.
Proof.
  assert (Hin : In SatisfiedBySkills
            (Shell.segmentSatisfiedBy
               (evaluateShellAllowlist (E := Fixture.externals) "linux" "deploy now"
                  None JsUndefined Samples.skillsOnly)))
    by (vm_compute; left; reflexivity).
  split; [exact Hin|].
  exact (evaluateShellAllowlist_skills_in_trail (E := Fixture.externals)
           "linux" "deploy now" None JsUndefined Samples.skillsOnly Hin).
Defined.

(** X14 on [head -n 5;], whose second part is empty and fails analysis:
    what [head -n 5] yielded is not returned. *)
Lemma evaluateShellAllowlist_fails_closed_witness :
  Shell.analysisOk
    (evaluateShellAllowlist (E := Fixture.externals) "linux" "head -n 5;" None
       JsUndefined Fixture.safeBinsOnly) = false
  /\ evaluateShellAllowlist (E := Fixture.externals) "linux" "head -n 5;" None
       JsUndefined Fixture.safeBinsOnly
     = {| Shell.analysisOk := false;
          Shell.allowlistSatisfied := false;
          Shell.allowlistMatches := [];
          Shell.segments := [];
          Shell.segmentSatisfiedBy := [] |}.
Proof.
  assert (Hfailed :
    Shell.analysisOk
      (evaluateShellAllowlist (E := Fixture.externals) "linux" "head -n 5;" None
         JsUndefined Fixture.safeBinsOnly) = false) by (vm_compute; reflexivity).
  split; [exact Hfailed|].
  exact (proj1 (evaluateShellAllowlist_fails_closed (E := Fixture.externals)
                  "linux" "head -n 5;" None JsUndefined Fixture.safeBinsOnly)
           Hfailed).
Defined.

(** X15 on [head -n 5;rm -rf x;grep -e y]: the first part passes, the
    second is denied, the third is not looked at. *)
Lemma evaluateShellAllowlist_chain_parts_witness :
  isWindowsPlatform (Externals := Fixture.externals) JsUndefined = false
  /\ splitCommandChain (Externals := Fixture.externals) "head -n 5;rm -rf x;grep -e y"
     = Some (["head -n 5"] ++ ["rm -rf x"; "grep -e y"])
  /\ forallb (partPasses (E := Fixture.externals) "linux" None JsUndefined
                Fixture.safeBinsOnly) ["head -n 5"] = true
  /\ ok (partAnalysis (E := Fixture.externals) None JsUndefined
           Fixture.safeBinsOnly "rm -rf x") = true
  /\ allowlistSatisfied
       (partEvaluation (E := Fixture.externals) "linux" None JsUndefined
          Fixture.safeBinsOnly "rm -rf x") = false
  /\ evaluateShellAllowlist (E := Fixture.externals) "linux"
       "head -n 5;rm -rf x;grep -e y" None JsUndefined Fixture.safeBinsOnly
     = {| Shell.analysisOk := true;
          Shell.allowlistSatisfied := false;
          Shell.allowlistMatches :=
            partsMatches (E := Fixture.externals) "linux" None JsUndefined
              Fixture.safeBinsOnly (["head -n 5"] ++ ["rm -rf x"]);
          Shell.segments :=
            partsSegments (E := Fixture.externals) None JsUndefined
              Fixture.safeBinsOnly (["head -n 5"] ++ ["rm -rf x"]);
          Shell.segmentSatisfiedBy :=
            partsTrail (E := Fixture.externals) "linux" None JsUndefined
              Fixture.safeBinsOnly (["head -n 5"] ++ ["rm -rf x"]) |}.
Proof.
  assert (Hplatform : isWindowsPlatform (Externals := Fixture.externals) JsUndefined
                      = false) by reflexivity.
  assert (Hsplit : splitCommandChain (Externals := Fixture.externals)
                     "head -n 5;rm -rf x;grep -e y"
                   = Some (["head -n 5"] ++ ["rm -rf x"; "grep -e y"]))
    by (vm_compute; reflexivity).
  assert (Hpassed : forallb (partPasses (E := Fixture.externals) "linux" None
                               JsUndefined Fixture.safeBinsOnly) ["head -n 5"] = true)
    by (vm_compute; reflexivity).
  assert (Hok : ok (partAnalysis (E := Fixture.externals) None JsUndefined
                      Fixture.safeBinsOnly "rm -rf x") = true)
    by (vm_compute; reflexivity).
  assert (Hdenied : allowlistSatisfied
                      (partEvaluation (E := Fixture.externals) "linux" None JsUndefined
                         Fixture.safeBinsOnly "rm -rf x") = false)
    by (vm_compute; reflexivity).
  repeat (split; [assumption|]).
  exact (proj2 (proj2
           (evaluateShellAllowlist_chain_parts (E := Fixture.externals) "linux"
              "head -n 5;rm -rf x;grep -e y" None JsUndefined Fixture.safeBinsOnly
              ["head -n 5"] ["rm -rf x"; "grep -e y"] Hplatform Hsplit Hpassed))
           "rm -rf x" ["grep -e y"] eq_refl Hok Hdenied).
Defined.

(** X16 with an analyser that reports chains: the platform passed in is
    Windows, so [ls | head -n 5;ls] is analysed as one unit, with two
    chains that flatten to its three segments. *)
Lemma evaluateShellAllowlist_trail_aligned_witness :
  (forall analysis,
      In analysis (commandAnalyses (E := Samples.chainAware) "ls | head -n 5;ls" None
                     (JsValue "win32") Fixture.withAllowlistedLs) ->
      analysisSegments analysis = segments analysis)
  /\ chains (analyzeShellCommand (Externals := Samples.chainAware) "ls | head -n 5;ls"
               None None (JsValue "win32"))
     = Some [[Fixture.segmentOf "ls "; Fixture.segmentOf " head -n 5"];
             [Fixture.segmentOf "ls"]]
  /\ Shell.allowlistSatisfied
       (evaluateShellAllowlist (E := Samples.chainAware) "linux" "ls | head -n 5;ls"
          None (JsValue "win32") Fixture.withAllowlistedLs) = true
  /\ Shell.segmentSatisfiedBy
       (evaluateShellAllowlist (E := Samples.chainAware) "linux" "ls | head -n 5;ls"
          None (JsValue "win32") Fixture.withAllowlistedLs)
     = List.map (resolvesTo (E := Samples.chainAware) "linux" Fixture.withAllowlistedLs)
         (Shell.segments
            (evaluateShellAllowlist (E := Samples.chainAware) "linux"
               "ls | head -n 5;ls" None (JsValue "win32") Fixture.withAllowlistedLs))
  /\ Shell.allowlistMatches
       (evaluateShellAllowlist (E := Samples.chainAware) "linux" "ls | head -n 5;ls"
          None (JsValue "win32") Fixture.withAllowlistedLs)
     = omap (matchOf (E := Samples.chainAware) "linux" Fixture.withAllowlistedLs)
         (Shell.segments
            (evaluateShellAllowlist (E := Samples.chainAware) "linux"
               "ls | head -n 5;ls" None (JsValue "win32") Fixture.withAllowlistedLs)).
Proof.
  assert (Hflat : forall analysis,
            In analysis (commandAnalyses (E := Samples.chainAware) "ls | head -n 5;ls"
                           None (JsValue "win32") Fixture.withAllowlistedLs) ->
            analysisSegments analysis = segments analysis).
  { intros analysis [<- | []]. vm_compute. reflexivity. }
  assert (Hsatisfied :
    Shell.allowlistSatisfied
      (evaluateShellAllowlist (E := Samples.chainAware) "linux" "ls | head -n 5;ls"
         None (JsValue "win32") Fixture.withAllowlistedLs) = true)
    by (vm_compute; reflexivity).
  split; [exact Hflat|]. split; [vm_compute; reflexivity|].
  split; [exact Hsatisfied|].
  exact (proj2 (evaluateShellAllowlist_trail_aligned (E := Samples.chainAware)
                  "linux" "ls | head -n 5;ls" None (JsValue "win32")
                  Fixture.withAllowlistedLs Hflat) Hsatisfied).
Defined.
